(** * scene-backend: event capacity, RSVP admission, payment status, analytics

    A shallow embedding of the request handlers of the Express server
    (POST /api/events, POST /api/events/:id/rsvp,
    POST /api/attendees/:id/confirm-payment, GET /api/events/:id/analytics)
    over the SQLite schema of [database.js].

    The driver (better-sqlite3) is synchronous and none of the four handlers
    awaits anything, so each handler body runs to completion on the event loop
    before the next request is served: a handler is a function from the store
    to a new store and a response.  Route middleware ([authenticateToken]) runs
    before the handler; the handlers below start where it calls [next()].

    [Routes] adds the token check itself, the two account routes, the event
    page, the reminders and the fallback of the promo generator.  The account routes await bcrypt, but each touches the store
    in one statement only, so they too are functions of the store at that
    point. *)

From Stdlib Require Import ZArith QArith.
From Stdlib Require Import Floats.PrimFloat Numbers.Cyclic.Int63.Uint63.
From Stdlib Require Import Ascii DecimalString.
From stdpp Require Import gmap strings fin_maps.

Local Open Scope string_scope.
Local Open Scope Z_scope.

(** ** JavaScript values read from [req.body] *)

Module Js.

(** A destructured body field: missing, JSON [null], or a value. *)
Inductive field (A : Type) : Type :=
| Undefined
| Null
| Val (a : A).
Arguments Undefined {A}.
Arguments Null {A}.
Arguments Val {A} a.

(** Truthiness of the values the handlers test. *)
Definition truthy_string (s : string) : bool :=
  match s with EmptyString => false | _ => true end.

Definition truthy_int (z : Z) : bool := negb (z =? 0).

Definition truthy_number (x : float) : bool :=
  negb (PrimFloat.eqb x 0 || PrimFloat.is_nan x).

(** [x || d] on a field. *)
Definition or_else {A} (truthy : A -> bool) (x : field A) (d : A) : A :=
  match x with
  | Val a => if truthy a then a else d
  | _ => d
  end.

(** An integer as a JavaScript number (exact below 2^53). *)
Definition number_of_Z (z : Z) : float :=
  if z <? 0 then PrimFloat.opp (PrimFloat.of_uint63 (Uint63.of_Z (- z)))
  else PrimFloat.of_uint63 (Uint63.of_Z z).

(** [ToNumber] on a column that is an integer or SQL NULL ([null] is 0). *)
Definition to_number (v : option Z) : float :=
  match v with
  | Some z => number_of_Z z
  | None => 0%float
  end.

(** A number that is only stored and compared, by its value: the rational
    value of the double a JSON number parses to ([2], [-1], [1.5], ...), or
    an infinity (what [1e999] parses to).  JSON has no NaN.  JavaScript
    compares two numbers by their values, and a row count is an exact
    number, so the comparisons below involve no rounding. *)
Inductive number : Type :=
| NegInfinity
| Finite (q : Q)
| Infinity.

(** An integer (a row count, an integer literal) as a number. *)
Definition int (z : Z) : number := Finite (inject_Z z).

(** [x >= y] *)
Definition geb (x y : number) : bool :=
  match x, y with
  | _, NegInfinity => true
  | Infinity, _ => true
  | Finite a, Finite b => Qle_bool b a
  | _, _ => false
  end.

(** The order of the values: [le x y] is [x <= y], [lt x y] is [x < y]. *)
Definition le (x y : number) : Prop :=
  match x, y with
  | NegInfinity, _ => True
  | _, Infinity => True
  | Finite a, Finite b => (a <= b)%Q
  | _, _ => False
  end.

Definition lt (x y : number) : Prop := ~ le y x.

End Js.

(** ** database.js: schema and statements *)

Module Database.

(** Rows are keyed by their [id TEXT PRIMARY KEY]; the key is the map key.
    Nullable TEXT columns are [option string]. *)

Record user := {
  user_email : string;
  password_hash : string;
  user_name : string;
  user_created_at : Z
}.

Record event := {
  user_id : string;
  event_name : string;
  description : option string;
  location : option string;
  date_time : float;
  capacity : Js.number;
  is_paid : Z;
  ticket_price : float;
  payment_method : option string;
  payment_instructions : option string;
  custom_questions : option string;
  image_url : option string;
  event_created_at : Z
}.

Record attendee := {
  event_id : string;
  attendee_name : string;
  email : string;
  status : string;
  payment_id : option string;
  custom_answers : option string;
  rsvp_date : Z
}.

(** The tables the four handlers read or write.  [messages],
    [promo_content] and [recap_photos] are not touched by them. *)
Record store := {
  users : gmap string user;
  events : gmap string event;
  attendees : gmap string attendee
}.

Definition with_events (st : store) (es : gmap string event) : store :=
  {| users := users st; events := es; attendees := attendees st |}.

Definition with_attendees (st : store) (ats : gmap string attendee) : store :=
  {| users := users st; events := events st; attendees := ats |}.

(** What [stmt.run] does with a parameter: a value is bound as it is and
    JSON [null] binds SQL NULL.  For [undefined] a driver either binds NULL
    or throws a TypeError; the driver is a dependency, not a file of this
    repository, so the statements take its convention as a parameter. *)
Inductive undefined_policy : Type :=
| BindsNull
| Throws.

Definition bind {A} (drv : undefined_policy) (x : Js.field A)
    : option (option A) :=
  match x with
  | Js.Undefined =>
      match drv with
      | BindsNull => Some None
      | Throws => None
      end
  | Js.Null => Some None
  | Js.Val a => Some (Some a)
  end.

(** A NaN bound to a column is stored as NULL. *)
Definition bind_number (x : float) : option float :=
  if PrimFloat.is_nan x then None else Some x.

(** [SELECT * FROM events WHERE id = ?] *)
Definition select_event (st : store) (id : string) : option event :=
  events st !! id.

(** [... FROM attendees WHERE event_id = ?] *)
Definition attendees_of (st : store) (eid : string) : gmap string attendee :=
  filter (fun kv : string * attendee => event_id kv.2 = eid) (attendees st).

(** [SELECT COUNT( * ) as count FROM attendees WHERE event_id = ?] *)
Definition count_attendees (st : store) (eid : string) : Z :=
  Z.of_nat (size (attendees_of st eid)).

(** [SUM(CASE WHEN status = s THEN 1 ELSE 0 END)] over a set of rows:
    NULL when there is no row. *)
Definition case_status (s : string) (a : attendee) : Z :=
  if decide (status a = s) then 1 else 0.

Definition sum_rows (f : attendee -> Z) (rows : gmap string attendee) : option Z :=
  if decide (size rows = 0%nat) then None
  else Some (map_fold (fun _ a acc => f a + acc) 0 rows).

(** [INSERT INTO events (...) VALUES (?, ..., ?)]: fails on a duplicate
    primary key, a NULL in a NOT NULL column, or a [user_id] that is not a
    user. *)
Definition insert_event (st : store) (id uid : string)
    (name : option string) (descr loc : option string)
    (date : option float) (cap : option Js.number) (paid : Z) (price : float)
    (method instr questions : string) (now : Z) : option store :=
  match events st !! id, users st !! uid, name, date, cap with
  | None, Some _, Some n, Some d, Some c =>
      Some (with_events st
        (<[id := {| user_id := uid; event_name := n; description := descr;
                    location := loc; date_time := d; capacity := c;
                    is_paid := paid; ticket_price := price;
                    payment_method := Some method;
                    payment_instructions := Some instr;
                    custom_questions := Some questions;
                    image_url := None;
                    event_created_at := now |}]> (events st)))
  | _, _, _, _, _ => None
  end.

(** [INSERT INTO attendees (id, event_id, name, email, status,
    custom_answers) VALUES (?, ?, ?, ?, ?, ?)] *)
Definition insert_attendee (st : store) (id eid : string)
    (name mail : option string) (stat answers : string) (now : Z)
    : option store :=
  match attendees st !! id, events st !! eid, name, mail with
  | None, Some _, Some n, Some m =>
      Some (with_attendees st
        (<[id := {| event_id := eid; attendee_name := n; email := m;
                    status := stat; payment_id := None;
                    custom_answers := Some answers;
                    rsvp_date := now |}]> (attendees st)))
  | _, _, _, _ => None
  end.

(** [UPDATE attendees SET status = 'paid', payment_id = ? WHERE id = ?] *)
Definition mark_paid (pay : option string) (a : attendee) : attendee :=
  {| event_id := event_id a; attendee_name := attendee_name a;
     email := email a; status := "paid"; payment_id := pay;
     custom_answers := custom_answers a; rsvp_date := rsvp_date a |}.

Definition update_paid (st : store) (pay : option string) (id : string) : store :=
  with_attendees st (alter (mark_paid pay) id (attendees st)).

End Database.

(** ** The route handlers *)

Module Server.
Import Database.

(** What a handler sends: [res.json(body)] or
    [res.status(code).json({ error })]. *)
Inductive response (A : Type) : Type :=
| Json (body : A)
| Failure (code : Z) (error : string).
Arguments Json {A} body.
Arguments Failure {A} code error.

(** *** POST /api/events *)

(** [body_dateTime] is the number [new Date(dateTime).getTime()] (NaN for
    an invalid date); [body_isPaid] is the truthiness of [isPaid];
    [body_customQuestions] is the JSON text of [customQuestions] when that
    is truthy.  [capacity] is any JSON number. *)
Record event_request := {
  body_name : Js.field string;
  body_description : Js.field string;
  body_location : Js.field string;
  body_dateTime : float;
  body_capacity : Js.field Js.number;
  body_isPaid : bool;
  body_ticketPrice : Js.field float;
  body_paymentMethod : Js.field string;
  body_paymentInstructions : Js.field string;
  body_customQuestions : option string
}.

Record event_created := {
  eventId : string;
  created_message : string
}.

(** [userId] is [req.user.userId], [eventId] the fresh [uuidv4()], [now]
    the clock read by the [created_at] default. *)
Definition post_events (drv : undefined_policy) (st : store) (userId : string)
    (body : event_request) (eventId : string) (now : Z)
    : store * response event_created :=
  let inserted :=
    name ← bind drv (body_name body);
    descr ← bind drv (body_description body);
    loc ← bind drv (body_location body);
    cap ← bind drv (body_capacity body);
    insert_event st eventId userId name descr loc
      (bind_number (PrimFloat.div (body_dateTime body) 1000))
      cap
      (if body_isPaid body then 1 else 0)
      (Js.or_else Js.truthy_number (body_ticketPrice body) 0%float)
      (Js.or_else Js.truthy_string (body_paymentMethod body) "none")
      (Js.or_else Js.truthy_string (body_paymentInstructions body) "")
      (default "[]" (body_customQuestions body))
      now in
  match inserted with
  | Some st' =>
      (st', Json {| eventId := eventId;
                    created_message := "Event created successfully" |})
  | None => (st, Failure 500 "Failed to create event")
  end.

(** *** POST /api/events/:id/rsvp *)

(** [body_answers] is the JSON text of [answers] when that is truthy. *)
Record rsvp_request := {
  rsvp_name : Js.field string;
  rsvp_email : Js.field string;
  body_answers : option string
}.

Record rsvp_accepted := {
  attendeeId : string;
  rsvp_status : string;
  rsvp_message : string
}.

Definition initial_status (e : event) : string :=
  if Js.truthy_int (is_paid e) then "unpaid" else "confirmed".

Definition post_events_rsvp (drv : undefined_policy) (st : store)
    (eventId : string) (body : rsvp_request) (attendeeId : string) (now : Z)
    : store * response rsvp_accepted :=
  match select_event st eventId with
  | None => (st, Failure 404 "Event not found")
  | Some event =>
      if Js.geb (Js.int (count_attendees st eventId)) (capacity event)
      then (st, Failure 400 "Event is full")
      else
        let status := initial_status event in
        let inserted :=
          name ← bind drv (rsvp_name body);
          mail ← bind drv (rsvp_email body);
          insert_attendee st attendeeId eventId name mail status
            (default "{}" (body_answers body)) now in
        match inserted with
        | Some st' =>
            (st', Json {| attendeeId := attendeeId;
                          rsvp_status := status;
                          rsvp_message := "RSVP successful" |})
        | None => (st, Failure 500 "RSVP failed")
        end
  end.

(** *** POST /api/attendees/:id/confirm-payment *)

Definition post_attendees_confirm_payment (drv : undefined_policy)
    (st : store) (id : string) (paymentId : Js.field string)
    : store * response string :=
  match bind drv paymentId with
  | Some pay => (update_paid st pay id, Json "Payment confirmed")
  | None => (st, Failure 500 "Payment confirmation failed")
  end.

(** *** GET /api/events/:id/analytics *)

Record analytics := {
  total_attendees : Z;
  paid_count : option Z;
  unpaid_count : option Z;
  waitlist_count : option Z;
  revenue : float;
  analytics_capacity : Js.number;
  eventDate : float
}.

Definition get_events_analytics (st : store) (id : string) : response analytics :=
  match select_event st id with
  | None => Failure 404 "Event not found"
  | Some event =>
      let rows := attendees_of st id in
      let paid := sum_rows (case_status "paid") rows in
      Json {| total_attendees := Z.of_nat (size rows);
              paid_count := paid;
              unpaid_count := sum_rows (case_status "unpaid") rows;
              waitlist_count := sum_rows (case_status "waitlist") rows;
              revenue :=
                if Js.truthy_int (is_paid event)
                then PrimFloat.mul (Js.to_number paid) (ticket_price event)
                else 0%float;
              analytics_capacity := capacity event;
              eventDate := date_time event |}
  end.

(** The error classes of the specification, as the handlers report them. *)
Definition NotFound {A} (r : response A) : Prop :=
  exists msg, r = Failure 404 msg.

Definition CapacityExceeded {A} (r : response A) : Prop :=
  r = Failure 400 "Event is full".

(** A run of RSVP requests served one after the other. *)
Record rsvp_call := {
  call_event : string;
  call_body : rsvp_request;
  call_uuid : string;
  call_now : Z
}.

Definition serve_rsvp (drv : undefined_policy) (st : store) (c : rsvp_call)
    : store :=
  (post_events_rsvp drv st (call_event c) (call_body c) (call_uuid c)
     (call_now c)).1.

Definition serve_rsvps (drv : undefined_policy) (st : store)
    (cs : list rsvp_call) : store :=
  foldl (serve_rsvp drv) st cs.

End Server.

(** ** The other routes of the server *)

Module Routes.
Import Database Server.

(** *** String methods the handlers call *)

(** [s.split(sep)] for a one-character separator: never empty, and
    [''.split(sep)] is [['']]. *)
Fixpoint split (sep : ascii) (s : string) : list string :=
  match s with
  | EmptyString => [EmptyString]
  | String c rest =>
      if Ascii.eqb c sep then EmptyString :: split sep rest
      else match split sep rest with
           | piece :: pieces => String c piece :: pieces
           | [] => [String c EmptyString]
           end
  end.

(** [s.substring(0, n)].  This counts the characters of the string, which
    are JavaScript's UTF-16 code units for text in which every character is
    one code unit. *)
Definition substring_to (n : nat) (s : string) : string :=
  String.substring 0 n s.

(** A template literal's rendering of a non-negative integer. *)
Definition decimal (n : nat) : string :=
  NilZero.string_of_uint (Nat.to_uint n).

(** A template literal's rendering of a body field; [Val s] carries the
    string the value converts to. *)
Definition interpolate (x : Js.field string) : string :=
  match x with
  | Js.Undefined => "undefined"
  | Js.Null => "null"
  | Js.Val s => s
  end.

(** *** authenticateToken *)

(** [res.sendStatus(code)], or [next()] with [req.user] set. *)
Inductive guarded (U : Type) : Type :=
| SendStatus (code : Z)
| Next (user : U).
Arguments SendStatus {U} code.
Arguments Next {U} user.

(** [authHeader && authHeader.split(' ')[1]] *)
Definition header_token (authHeader : option string) : option string :=
  match authHeader with
  | Some h => if Js.truthy_string h then split " "%char h !! 1%nat else Some h
  | None => None
  end.

(** [verify] is [jwt.verify] under the server's secret: the decoded payload,
    or [None] when it reports an error. *)
Definition authenticateToken {U} (verify : string -> option U)
    (authHeader : option string) : guarded U :=
  match header_token authHeader with
  | Some token =>
      if Js.truthy_string token then
        match verify token with
        | Some user => Next user
        | None => SendStatus 403
        end
      else SendStatus 401
  | None => SendStatus 401
  end.

(** *** POST /api/auth/register and POST /api/auth/login *)

Definition with_users (st : store) (us : gmap string user) : store :=
  {| users := us; events := events st; attendees := attendees st |}.

(** [... FROM users WHERE email = ?] *)
Definition users_with_email (st : store) (m : string) : gmap string user :=
  filter (fun kv : string * user => user_email kv.2 = m) (users st).

(** [INSERT INTO users (id, email, password_hash, name) VALUES (?, ?, ?, ?)]:
    fails on a duplicate primary key, a duplicate [email] (UNIQUE), or a
    NULL in a NOT NULL column. *)
Definition insert_user (st : store) (id : string) (mail : option string)
    (hash : string) (name : option string) (now : Z) : option store :=
  match users st !! id, mail, name with
  | None, Some m, Some n =>
      if decide (users_with_email st m = ∅) then
        Some (with_users st
          (<[id := {| user_email := m; password_hash := hash;
                      user_name := n; user_created_at := now |}]> (users st)))
      else None
  | _, _, _ => None
  end.

(** [SELECT * FROM users WHERE email = ?] with [.get]: a row with that
    email, if any ([email = NULL] matches no row). *)
Definition select_user_by_email (st : store) (mail : option string)
    : option (string * user) :=
  match mail with
  | Some m => head (map_to_list (users_with_email st m))
  | None => None
  end.

Record register_request := {
  reg_email : Js.field string;
  reg_password : Js.field string;
  reg_name : Js.field string
}.

Record login_request := {
  login_email : Js.field string;
  login_password : Js.field string
}.

Record account := {
  account_id : string;
  account_email : string;
  account_name : string
}.

Record session := {
  token : string;
  session_user : account
}.

(** [hashed] is what [bcrypt.hash(password, 10)] resolved to (it salts at
    random), [userId] the fresh [uuidv4()], [sign userId email] the token
    [jwt.sign({ userId, email }, secret)]; bcrypt rejects a password that is
    not a string. *)
Definition post_auth_register (drv : undefined_policy)
    (sign : string -> string -> string) (st : store) (body : register_request)
    (hashed : string) (userId : string) (now : Z) : store * response session :=
  match reg_password body with
  | Js.Val _ =>
      match bind drv (reg_email body), bind drv (reg_name body) with
      | Some mail, Some name =>
          match insert_user st userId mail hashed name now, mail, name with
          | Some st', Some m, Some n =>
              (st', Json {| token := sign userId m;
                            session_user := {| account_id := userId;
                                               account_email := m;
                                               account_name := n |} |})
          | _, _, _ => (st, Failure 500 "Registration failed")
          end
      | _, _ => (st, Failure 500 "Registration failed")
      end
  | _ => (st, Failure 500 "Registration failed")
  end.

(** [compare password hash] is what [bcrypt.compare] resolves to. *)
Definition post_auth_login (drv : undefined_policy)
    (compare : string -> string -> bool) (sign : string -> string -> string)
    (st : store) (body : login_request) : response session :=
  match bind drv (login_email body) with
  | Some mail =>
      match select_user_by_email st mail with
      | None => Failure 400 "Invalid credentials"
      | Some (id, u) =>
          match login_password body with
          | Js.Val password =>
              if compare password (password_hash u) then
                Json {| token := sign id (user_email u);
                        session_user := {| account_id := id;
                                           account_email := user_email u;
                                           account_name := user_name u |} |}
              else Failure 400 "Invalid credentials"
          | _ => Failure 500 "Login failed"
          end
      end
  | None => Failure 500 "Login failed"
  end.

(** *** GET /api/events/:id *)

(** [{ ...event, attendees }]; the attendee rows come with no ORDER BY and
    are kept as the finite map from their ids. *)
Record event_page := {
  page_event : event;
  page_attendees : gmap string attendee
}.

Definition get_event (st : store) (id : string) : response event_page :=
  match select_event st id with
  | None => Failure 404 "Event not found"
  | Some e => Json {| page_event := e; page_attendees := attendees_of st id |}
  end.

(** *** POST /api/events/:id/send-reminders *)

Record reminders := {
  reminders_message : string;
  reminders_count : Z
}.

(** [SELECT * FROM attendees WHERE event_id = ? AND status = 'unpaid'] *)
Definition unpaid_attendees (st : store) (eid : string) : gmap string attendee :=
  filter (fun kv : string * attendee =>
            event_id kv.2 = eid /\ status kv.2 = "unpaid") (attendees st).

Definition post_send_reminders (st : store) (id : string) : response reminders :=
  let n := size (unpaid_attendees st id) in
  Json {| reminders_message :=
            "Reminders sent to " +:+ decimal n +:+ " attendees";
          reminders_count := Z.of_nat n |}.

(** *** POST /api/ai/generate-promo-ideas, without an Anthropic client *)

Record promo := {
  variant : Z;
  promo_text : string;
  tagline : Js.field string
}.

(** [eventName.split(':')[0] || eventName.substring(0, 30)] *)
Definition short_name (eventName : string) : string :=
  match split ":"%char eventName !! 0%nat with
  | Some piece =>
      if Js.truthy_string piece then piece else substring_to 30 eventName
  | None => substring_to 30 eventName
  end.

Definition fallbackPromos (eventName : string) (dateTime location : Js.field string)
    (isPaid : bool) (ticketPrice : Js.field string) : list promo :=
  [ {| variant := 1; promo_text := eventName; tagline := dateTime |};
    {| variant := 2; promo_text := short_name eventName; tagline := location |};
    {| variant := 3; promo_text := "Join Us";
       tagline := if isPaid then Js.Val ("$" +:+ interpolate ticketPrice)
                  else Js.Val "Free Event" |} ].

Record promo_request := {
  promo_eventName : Js.field string;
  promo_dateTime : Js.field string;
  promo_location : Js.field string;
  promo_isPaid : bool;
  promo_ticketPrice : Js.field string
}.

(** The handler when [anthropic] is null: calling [split] on a missing
    [eventName] throws. *)
Definition post_generate_promo_ideas_fallback (body : promo_request)
    : response (list promo) :=
  match promo_eventName body with
  | Js.Val eventName =>
      Json (fallbackPromos eventName (promo_dateTime body)
              (promo_location body) (promo_isPaid body)
              (promo_ticketPrice body))
  | _ => Failure 500 "Promo generation failed"
  end.

(** *** Requests that write, served one after the other *)

Inductive request : Type :=
| Register (body : register_request) (hashed userId : string) (now : Z)
| CreateEvent (userId : string) (body : event_request) (eventId : string)
    (now : Z)
| Rsvp (eventId : string) (body : rsvp_request) (attendeeId : string) (now : Z)
| ConfirmPayment (id : string) (paymentId : Js.field string).

Definition serve (drv : undefined_policy) (sign : string -> string -> string)
    (st : store) (r : request) : store :=
  match r with
  | Register body hashed userId now =>
      (post_auth_register drv sign st body hashed userId now).1
  | CreateEvent userId body eventId now =>
      (post_events drv st userId body eventId now).1
  | Rsvp eventId body attendeeId now =>
      (post_events_rsvp drv st eventId body attendeeId now).1
  | ConfirmPayment id paymentId =>
      (post_attendees_confirm_payment drv st id paymentId).1
  end.

Definition serve_all (drv : undefined_policy)
    (sign : string -> string -> string) (st : store) (rs : list request)
    : store :=
  foldl (serve drv sign) st rs.

End Routes.

(** ** Counting rows *)

Import Database Server Routes.

(** The number of attendee records of event [eid] whose status is [s]. *)
Definition status_count (st : store) (eid s : string) : Z :=
  Z.of_nat (size (filter (fun kv : string * attendee =>
                            event_id kv.2 = eid /\ status kv.2 = s)
                         (attendees st))).

(** A store with the organiser ["u1"] and no event.  The scenarios below
    bind no [undefined], so they run the same under either driver
    convention; they are run under [BindsNull]. *)
Definition organiser_only : store :=
  {| users := {[ "u1" := {| user_email := "o@scene.test";
                            password_hash := "$2a$10$hash";
                            user_name := "Organiser";
                            user_created_at := 1700000000 |} ]};
     events := ∅;
     attendees := ∅ |}.

Definition event_body_at (cap : Js.number) (paid : bool) (price : float)
    : event_request :=
  {| body_name := Js.Val "Launch";
     body_description := Js.Null;
     body_location := Js.Val "Lagos";
     body_dateTime := 1800000000000%float;
     body_capacity := Js.Val cap;
     body_isPaid := paid;
     body_ticketPrice := Js.Val price;
     body_paymentMethod := Js.Undefined;
     body_paymentInstructions := Js.Undefined;
     body_customQuestions := None |}.

Definition event_body (cap : Z) (paid : bool) (price : float) : event_request :=
  event_body_at (Js.int cap) paid price.

Definition guest (n : string) : rsvp_request :=
  {| rsvp_name := Js.Val n;
     rsvp_email := Js.Val "guest@scene.test";
     body_answers := None |}.

(** The store after the organiser created event ["e1"]. *)
Definition one_event_at (cap : Js.number) (paid : bool) (price : float)
    : store :=
  (post_events BindsNull organiser_only "u1" (event_body_at cap paid price)
     "e1" 1700000100).1.

Definition one_event (cap : Z) (paid : bool) (price : float) : store :=
  one_event_at (Js.int cap) paid price.

(** The row that [one_event_at] stores for ["e1"]. *)
Definition launch_at (cap : Js.number) (paid : Z) (price : float) : event :=
  {| user_id := "u1"; event_name := "Launch"; description := None;
     location := Some "Lagos"; date_time := 1800000000%float;
     capacity := cap; is_paid := paid; ticket_price := price;
     payment_method := Some "none"; payment_instructions := Some "";
     custom_questions := Some "[]"; image_url := None;
     event_created_at := 1700000100 |}.

Definition launch (cap paid : Z) (price : float) : event :=
  launch_at (Js.int cap) paid price.


(** The JSON number [1.5]. *)
Definition one_and_a_half : Js.number := Js.Finite (3 # 2).

Definition call (uuid name : string) : rsvp_call :=
  {| call_event := "e1"; call_body := guest name; call_uuid := uuid;
     call_now := 1700000200 |}.

(** A free event of capacity 1 after its first RSVP. *)
Definition free_full : store :=
  serve_rsvps BindsNull (one_event 1 false 0) [call "a1" "Ada"].

(** A paid event (capacity 2, price 10.00) after two RSVPs. *)
Definition paid_two : store :=
  serve_rsvps BindsNull (one_event 2 true 10) [call "a1" "Ada"; call "a2" "Bo"].

(** ** Shapes of stores and requests used in the statements below *)

(** Every attendee row refers to an event row (the FOREIGN KEY of the
    attendees table). *)
Definition referential (st : store) : Prop :=
  forall id a, attendees st !! id = Some a -> is_Some (events st !! event_id a).

(** Every attendee row carries one of the statuses the handlers write. *)
Definition known_statuses (st : store) : Prop :=
  forall id a, attendees st !! id = Some a ->
    status a = "unpaid" \/ status a = "confirmed" \/ status a = "paid".

(** No attendee of a free event is "unpaid". *)
Definition free_events_owe_nothing (st : store) : Prop :=
  forall id a e, attendees st !! id = Some a ->
    events st !! event_id a = Some e -> is_paid e = 0 -> status a <> "unpaid".


Fixpoint has_char (c : ascii) (s : string) : bool :=
  match s with
  | EmptyString => false
  | String d rest => Ascii.eqb d c || has_char c rest
  end.

(** The row an accepted RSVP inserts. *)
Definition rsvp_row (e : event) (eid n m : string) (body : rsvp_request)
    (now : Z) : attendee :=
  {| event_id := eid; attendee_name := n; email := m;
     status := initial_status e; payment_id := None;
     custom_answers := Some (default "{}" (body_answers body));
     rsvp_date := now |}.

(** What one write request can do to the store: nothing, add a user, add an
    event under a fresh id, add an attendee row to an event with room, or
    mark one attendee id paid. *)
Inductive effect (st : store) : store -> Prop :=
| effect_none : effect st st
| effect_user (us : gmap string user) : effect st (with_users st us)
| effect_event (id : string) (e : event) :
    events st !! id = None ->
    effect st (with_events st (<[id := e]> (events st)))
| effect_attendee (uuid eid : string) (e : event) (n m : string)
    (body : rsvp_request) (now : Z) :
    select_event st eid = Some e ->
    Js.lt (Js.int (count_attendees st eid)) (capacity e) ->
    attendees st !! uuid = None ->
    effect st (with_attendees st
                 (<[uuid := rsvp_row e eid n m body now]> (attendees st)))
| effect_paid (pay : option string) (id : string) :
    effect st (update_paid st pay id).

(** A token check that accepts exactly the token ["good"]. *)
Definition only_good (t : string) : option string :=
  if decide (t = "good") then Some "u1" else None.

Definition dotted (a b : string) : string := a +:+ "." +:+ b.

Definition ann : register_request :=
  {| reg_email := Js.Val "ann@scene.test"; reg_password := Js.Val "pw";
     reg_name := Js.Val "Ann" |}.

(** A run of requests on event ["e1"]: two RSVPs, a payment confirmation,
    the creation of a second event and a registration. *)
Definition busy_day : list request :=
  [ Rsvp "e1" (guest "Ada") "a1" 1700000200;
    Rsvp "e1" (guest "Bo") "a2" 1700000300;
    ConfirmPayment "a1" (Js.Val "pi_1");
    CreateEvent "u1" (event_body 5 false 0) "e2" 1700000400;
    Register ann "$2a$10$annhash" "u2" 1700000500 ].

(** A bcrypt that accepts the password ["pw"] for the hash of [ann]. *)
Definition accepts_pw (password hash : string) : bool :=
  bool_decide (password = "pw" /\ hash = "$2a$10$annhash").

(** The row of attendee ["a1"] in [paid_two]. *)
Definition ada_unpaid : attendee :=
  {| event_id := "e1"; attendee_name := "Ada"; email := "guest@scene.test";
     status := "unpaid"; payment_id := None; custom_answers := Some "{}";
     rsvp_date := 1700000200 |}.

Section Rows.
Context {A : Type}.
Implicit Types (m : gmap string A) (P : string * A -> Prop).

Lemma size_filter_insert P `{!forall kv, Decision (P kv)} m i x :
  m !! i = None ->
  size (filter P (<[i:=x]> m)) =
    if decide (P (i, x)) then S (size (filter P m)) else size (filter P m).
Proof.
  intros Hi. rewrite map_filter_insert. case_decide.
  - apply map_size_insert_None. by apply map_lookup_filter_None_2; left.
  - by rewrite delete_id.
Qed.

Lemma sum_insert (f : A -> Z) m i x :
  m !! i = None ->
  map_fold (fun _ a acc => f a + acc) 0 (<[i:=x]> m) =
    f x + map_fold (fun _ a acc => f a + acc) 0 m.
Proof.
  intros Hi. apply (map_fold_insert_L (fun _ a acc => f a + acc)); [|done].
  intros. lia.
Qed.

Lemma alter_absent (f : A -> A) m i : m !! i = None -> alter f i m = m.
Proof.
  intros Hi. apply map_eq; intros j.
  destruct (decide (i = j)) as [->|Hne].
  - by rewrite lookup_alter_eq, Hi.
  - by rewrite lookup_alter_ne.
Qed.

Lemma alter_twice (f : A -> A) m i :
  (forall a, f (f a) = f a) -> alter f i (alter f i m) = alter f i m.
Proof.
  intros Hf. apply map_eq; intros j.
  destruct (decide (i = j)) as [->|Hne].
  - rewrite !lookup_alter_eq. destruct (m !! j); simpl; [by rewrite Hf|done].
  - by rewrite !lookup_alter_ne.
Qed.
End Rows.

Lemma sum_case_status s (rows : gmap string attendee) :
  map_fold (fun _ a acc => case_status s a + acc) 0 rows =
    Z.of_nat (size (filter (fun kv : string * attendee => status kv.2 = s) rows)).
Proof.
  induction rows as [|i x m Hi IH] using map_ind.
  - by rewrite map_fold_empty, map_filter_empty, map_size_empty.
  - rewrite sum_insert, IH, size_filter_insert by done.
    unfold case_status; simpl. repeat case_decide; try done; lia.
Qed.

Lemma status_count_rows st eid s :
  status_count st eid s =
    Z.of_nat (size (filter (fun kv : string * attendee => status kv.2 = s)
                           (attendees_of st eid))).
Proof.
  unfold status_count, attendees_of. rewrite map_filter_filter.
  do 2 f_equal. apply map_filter_ext. intros i x _; simpl. tauto.
Qed.

Lemma sum_rows_status st eid s :
  sum_rows (case_status s) (attendees_of st eid) =
    if decide (count_attendees st eid = 0) then None
    else Some (status_count st eid s).
Proof.
  unfold sum_rows, count_attendees.
  rewrite sum_case_status, <- status_count_rows.
  destruct (decide (size (attendees_of st eid) = 0%nat)) as [Hz|Hz];
    case_decide; try done; lia.
Qed.

Lemma count_attendees_insert st id a eid :
  attendees st !! id = None ->
  count_attendees (with_attendees st (<[id:=a]> (attendees st))) eid =
    count_attendees st eid + (if decide (event_id a = eid) then 1 else 0).
Proof.
  intros Hid. unfold count_attendees, attendees_of; simpl.
  rewrite size_filter_insert by done. simpl. case_decide; lia.
Qed.

Lemma status_counts_le_total (rows : gmap string attendee) :
  map_fold (fun _ a acc => case_status "paid" a + acc) 0 rows
  + map_fold (fun _ a acc => case_status "unpaid" a + acc) 0 rows
  + map_fold (fun _ a acc => case_status "waitlist" a + acc) 0 rows
  + map_fold (fun _ a acc => case_status "confirmed" a + acc) 0 rows
  <= Z.of_nat (size rows).
Proof.
  induction rows as [|i x m Hi IH] using map_ind.
  - by rewrite !map_fold_empty, map_size_empty.
  - rewrite !sum_insert, map_size_insert_None by done.
    unfold case_status in *. repeat case_decide; try congruence; lia.
Qed.

(** ** Comparing numbers *)

Lemma number_geb_le x y : Js.geb x y = true <-> Js.le y x.
Proof.
  destruct x as [|a|], y as [|b|]; simpl;
    first [apply Qle_bool_iff | by split | split; [discriminate|tauto]].
Qed.

Lemma number_geb_lt x y : Js.geb x y = false <-> Js.lt x y.
Proof.
  unfold Js.lt. rewrite <- number_geb_le.
  destruct (Js.geb x y); split; done.
Qed.

Lemma number_le_int a b : Js.le (Js.int a) (Js.int b) <-> a <= b.
Proof. simpl. by rewrite <- Zle_Qle. Qed.


Lemma number_le_trans x y z : Js.le x y -> Js.le y z -> Js.le x z.
Proof.
  destruct x as [|a|], y as [|b|], z as [|c|]; simpl; try tauto.
  apply Qle_trans.
Qed.

(** A count that has reached a number stays at or above it as it grows. *)
Lemma number_le_int_mono c n m : Js.le c (Js.int n) -> n <= m -> Js.le c (Js.int m).
Proof.
  intros Hc Hnm. apply (number_le_trans c (Js.int n)); [done|].
  by apply number_le_int.
Qed.

(** ** RSVP admission *)

(** What an accepted RSVP did to the store. *)
Lemma rsvp_accepted_inv drv st eid body uuid now st' r :
  post_events_rsvp drv st eid body uuid now = (st', Json r) ->
  exists e n m,
    select_event st eid = Some e /\
    Js.lt (Js.int (count_attendees st eid)) (capacity e) /\
    attendees st !! uuid = None /\
    rsvp_name body = Js.Val n /\ rsvp_email body = Js.Val m /\
    r = {| attendeeId := uuid; rsvp_status := initial_status e;
           rsvp_message := "RSVP successful" |} /\
    st' = with_attendees st
            (<[uuid := {| event_id := eid; attendee_name := n; email := m;
                          status := initial_status e; payment_id := None;
                          custom_answers := Some (default "{}" (body_answers body));
                          rsvp_date := now |}]> (attendees st)).
Proof.
  unfold post_events_rsvp, insert_attendee, select_event.
  destruct (events st !! eid) as [e|] eqn:He; [|discriminate].
  destruct (Js.geb (Js.int (count_attendees st eid)) (capacity e)) eqn:Hroom;
    [discriminate|].
  apply number_geb_lt in Hroom.
  destruct drv, (rsvp_name body) as [| |n], (rsvp_email body) as [| |m],
    (attendees st !! uuid) eqn:Hid; simpl; try discriminate.
  all: intros [= <- <-]; exists e, n, m; by split_and!.
Qed.

(** Every response other than an acceptance leaves the store as it was. *)
Lemma rsvp_failure_keeps_store drv st eid body uuid now code msg :
  (post_events_rsvp drv st eid body uuid now).2 = Failure code msg ->
  (post_events_rsvp drv st eid body uuid now).1 = st.
Proof.
  unfold post_events_rsvp.
  destruct (select_event st eid) as [e|]; [|done].
  destruct (Js.geb _ _); [done|].
  destruct (_ ≫= _); [discriminate|done].
Qed.

(** One RSVP request keeps the events table and any bound on the count at
    which the capacity is reached. *)
Lemma serve_rsvp_bound drv st c eid e n :
  select_event st eid = Some e ->
  Js.le (capacity e) (Js.int n) ->
  count_attendees st eid <= n ->
  select_event (serve_rsvp drv st c) eid = Some e /\
  count_attendees (serve_rsvp drv st c) eid <= n.
Proof.
  intros He Hn Hle. unfold serve_rsvp.
  destruct (post_events_rsvp drv st (call_event c) (call_body c) (call_uuid c)
              (call_now c)) as [st' [r|code msg]] eqn:Hcall; simpl.
  - apply rsvp_accepted_inv in Hcall
      as (e' & a & m & He' & Hlt & Hid & _ & _ & _ & ->).
    split; [done|].
    rewrite count_attendees_insert by done. simpl.
    case_decide as Heq; [|lia].
    subst eid. rewrite He in He'. injection He' as <-.
    destruct (decide (count_attendees st (call_event c) = n)) as [Hfull|]; [|lia].
    destruct Hlt. by rewrite Hfull.
  - pose proof (rsvp_failure_keeps_store drv st (call_event c) (call_body c)
                  (call_uuid c) (call_now c) code msg) as Hkeep.
    rewrite Hcall in Hkeep. simpl in Hkeep. by rewrite Hkeep.
Qed.

Lemma serve_rsvps_bound drv cs : forall st eid e n,
  select_event st eid = Some e ->
  Js.le (capacity e) (Js.int n) ->
  count_attendees st eid <= n ->
  select_event (serve_rsvps drv st cs) eid = Some e /\
  count_attendees (serve_rsvps drv st cs) eid <= n.
Proof.
  induction cs as [|c cs IH]; intros st eid e n He Hn Hle; [done|].
  destruct (serve_rsvp_bound drv st c eid e n He Hn Hle) as [He' Hle'].
  apply (IH (serve_rsvp drv st c) eid e n He' Hn Hle').
Qed.

Lemma rsvp_full drv st eid e body uuid now :
  select_event st eid = Some e ->
  Js.le (capacity e) (Js.int (count_attendees st eid)) ->
  post_events_rsvp drv st eid body uuid now = (st, Failure 400 "Event is full").
Proof.
  intros He Hfull. unfold post_events_rsvp. rewrite He.
  by rewrite (proj2 (number_geb_le _ _) Hfull).
Qed.

(** C1 (as the handler behaves): let [n] be a count that reaches the
    capacity of an event, [C <= n]; for an integer capacity C take [n = C],
    and for the capacity 1.5 the least such count is 2.  If the attendee
    count is at most [n], then after any sequence of RSVP requests (to any
    events, with any bodies) the event still has its capacity and its
    attendee count is at most [n], at the end and after every prefix of the
    sequence; in any such state an RSVP for the event that would take the
    count above [n] is answered 400 "Event is full" and leaves the store as
    it was.  So the count never exceeds an integer capacity. *)
Theorem capacity_never_exceeded (drv : undefined_policy) (st : store)
    (eid : string) (e : event) (n : Z) (calls : list rsvp_call) :
  select_event st eid = Some e ->
  Js.le (capacity e) (Js.int n) ->
  count_attendees st eid <= n ->
  (forall k,
     let st' := serve_rsvps drv st (take k calls) in
     select_event st' eid = Some e /\
     count_attendees st' eid <= n /\
     (forall body uuid now,
        n < count_attendees st' eid + 1 ->
        post_events_rsvp drv st' eid body uuid now = (st', Failure 400 "Event is full") /\
        CapacityExceeded (post_events_rsvp drv st' eid body uuid now).2)) /\
  count_attendees (serve_rsvps drv st calls) eid <= n.
Proof.
  intros He Hn Hle. split.
  - intros k st'.
    destruct (serve_rsvps_bound drv (take k calls) st eid e n He Hn Hle)
      as [He' Hle'].
    fold st' in He', Hle'. split_and!; try done.
    intros body uuid now Habove.
    assert (Js.le (capacity e) (Js.int (count_attendees st' eid))) as Hfull
      by (apply (number_le_int_mono _ n); [done|lia]).
    rewrite (rsvp_full drv st' eid e) by done. by split.
  - apply (serve_rsvps_bound drv calls st eid e n He Hn Hle).
Qed.

(** C1, as stated, fails for a capacity that is not an integer: event
    creation accepts the capacity 1.5; the event starts with 0 attendees,
    which is at most 1.5, and after two RSVPs it has 2, which exceeds
    1.5. *)
Lemma capacity_exceeded_at_fractional_capacity :
  let st := one_event_at one_and_a_half false 0 in
  let st' := serve_rsvps BindsNull st [call "a1" "Ada"; call "a2" "Bo"] in
  select_event st "e1" = Some (launch_at one_and_a_half 0 0) /\
  Js.le (Js.int (count_attendees st "e1")) one_and_a_half /\
  count_attendees st' "e1" = 2 /\
  ~ Js.le (Js.int (count_attendees st' "e1")) one_and_a_half.
Proof.
  split_and!; [reflexivity| |reflexivity|].
  - vm_compute. discriminate.
  - vm_compute. intros Hle. by apply Hle.
Qed.

(** C2: for an existing event, when the number of attendee rows of the event
    (whatever their status) is at least the capacity, the RSVP is answered
    400 "Event is full" and the store, hence the attendee table, is
    unchanged. *)
Theorem rsvp_rejected_when_full (drv : undefined_policy) (st : store)
    (eid : string) (e : event) (body : rsvp_request) (uuid : string) (now : Z) :
  select_event st eid = Some e ->
  Js.le (capacity e)
    (Js.int (Z.of_nat (size (filter (fun kv : string * attendee =>
                                       event_id kv.2 = eid)
                                    (attendees st))))) ->
  CapacityExceeded (post_events_rsvp drv st eid body uuid now).2 /\
  (post_events_rsvp drv st eid body uuid now).1 = st /\
  attendees (post_events_rsvp drv st eid body uuid now).1 = attendees st.
Proof.
  intros He Hfull.
  rewrite (rsvp_full drv st eid e) by done.
  by repeat split.
Qed.

(** C3: an accepted RSVP answers with status "confirmed" when the event's
    [is_paid] is 0 and "unpaid" otherwise, and the row inserted under the
    returned attendee id carries that same status; no other row changes. *)
Theorem rsvp_initial_status (drv : undefined_policy) (st : store)
    (eid : string) (body : rsvp_request) (uuid : string) (now : Z)
    (st' : store) (r : rsvp_accepted) :
  post_events_rsvp drv st eid body uuid now = (st', Json r) ->
  exists e a,
    select_event st eid = Some e /\
    rsvp_status r = (if decide (is_paid e = 0) then "confirmed" else "unpaid") /\
    attendees st !! attendeeId r = None /\
    attendees st' !! attendeeId r = Some a /\
    event_id a = eid /\
    status a = rsvp_status r /\
    (forall id, id <> attendeeId r -> attendees st' !! id = attendees st !! id).
Proof.
  intros Hcall.
  apply rsvp_accepted_inv in Hcall
    as (e & n & m & He & _ & Hid & _ & _ & -> & ->).
  eexists e, _; simpl. split_and!; try done.
  - unfold initial_status, Js.truthy_int.
    case_decide as Hz; [by rewrite Hz|].
    by destruct (Z.eqb_spec (is_paid e) 0).
  - apply lookup_insert_eq.
  - done.
  - done.
  - intros id Hne. by apply lookup_insert_ne.
Qed.

(** C4: an RSVP for an event id with no event row is answered 404
    "Event not found" and the store, hence the attendee table, is
    unchanged. *)
Theorem rsvp_unknown_event (drv : undefined_policy) (st : store)
    (eid : string) (body : rsvp_request) (uuid : string) (now : Z) :
  select_event st eid = None ->
  post_events_rsvp drv st eid body uuid now = (st, Failure 404 "Event not found") /\
  NotFound (post_events_rsvp drv st eid body uuid now).2 /\
  attendees (post_events_rsvp drv st eid body uuid now).1 = attendees st.
Proof.
  intros He. unfold post_events_rsvp. rewrite He. simpl.
  split_and!; try done. by eexists.
Qed.

(** ** Payment confirmation *)

Lemma mark_paid_twice pay a : mark_paid pay (mark_paid pay a) = mark_paid pay a.
Proof. reflexivity. Qed.

(** An UPDATE whose WHERE matches no row changes nothing. *)
Lemma update_paid_absent st pay id :
  attendees st !! id = None -> update_paid st pay id = st.
Proof.
  intros Hid. unfold update_paid. rewrite alter_absent by done.
  by destruct st.
Qed.

Lemma update_paid_twice st pay id :
  update_paid (update_paid st pay id) pay id = update_paid st pay id.
Proof.
  unfold update_paid, with_attendees; simpl.
  by rewrite alter_twice by apply mark_paid_twice.
Qed.

(** C5: with no attendee row at all, confirming a payment for the id
    ["a-missing"] is acknowledged with "Payment confirmed" (the UPDATE
    matches zero rows) and the store is unchanged; the response is not a
    404. *)
Theorem confirm_payment_unknown_attendee_acknowledged (drv : undefined_policy) :
  attendees organiser_only !! "a-missing" = None /\
  post_attendees_confirm_payment drv organiser_only "a-missing" (Js.Val "pi_123")
    = (organiser_only, Json "Payment confirmed") /\
  ~ NotFound
      (post_attendees_confirm_payment drv organiser_only "a-missing"
         (Js.Val "pi_123")).2.
Proof.
  split_and!; [done|reflexivity|].
  intros [msg Hmsg]. discriminate Hmsg.
Qed.

(** C6: for an existing attendee, whatever its status, confirming a payment
    with a reference that [stmt.run] binds (a string binds as itself, JSON
    null as NULL) answers "Payment confirmed", sets the row's status to
    "paid" and its payment_id to the reference, keeps every other column of
    the row, every other attendee row, and the events and users tables. *)
Theorem confirm_payment_sets_paid (drv : undefined_policy) (st : store)
    (id : string) (paymentId : Js.field string) (ref : option string)
    (a : attendee) :
  bind drv paymentId = Some ref ->
  attendees st !! id = Some a ->
  let out := post_attendees_confirm_payment drv st id paymentId in
  out.2 = Json "Payment confirmed" /\
  attendees out.1 !! id =
    Some {| event_id := event_id a; attendee_name := attendee_name a;
            email := email a; status := "paid"; payment_id := ref;
            custom_answers := custom_answers a; rsvp_date := rsvp_date a |} /\
  (forall j, j <> id -> attendees out.1 !! j = attendees st !! j) /\
  events out.1 = events st /\
  users out.1 = users st.
Proof.
  intros Hbind Ha out. subst out.
  unfold post_attendees_confirm_payment. rewrite Hbind. simpl.
  split_and!; try done.
  - by rewrite lookup_alter_eq, Ha.
  - intros j Hne. by apply lookup_alter_ne.
Qed.

(** C8: confirming a payment a second time with the same payment reference
    gives the same store and the same response as confirming it once, and
    the analytics of every event (paid_count and revenue among them) are
    those after the first confirmation. *)
Theorem confirm_payment_idempotent (drv : undefined_policy) (st : store)
    (id : string) (paymentId : Js.field string) :
  let once := post_attendees_confirm_payment drv st id paymentId in
  let twice := post_attendees_confirm_payment drv once.1 id paymentId in
  twice = once /\
  forall eid,
    get_events_analytics twice.1 eid = get_events_analytics once.1 eid /\
    status_count twice.1 eid "paid" = status_count once.1 eid "paid".
Proof.
  intros once twice.
  assert (twice = once) as Heq.
  { subst once twice. unfold post_attendees_confirm_payment.
    destruct (bind drv paymentId) as [pay|]; simpl; [|done].
    by rewrite update_paid_twice. }
  split; [done|]. intros eid. by rewrite Heq.
Qed.

(** ** Analytics *)

Lemma to_number_paid st eid :
  Js.to_number (sum_rows (case_status "paid") (attendees_of st eid)) =
    Js.number_of_Z (status_count st eid "paid").
Proof.
  rewrite sum_rows_status. case_decide as Hz; simpl; [|done].
  assert (status_count st eid "paid" = 0) as ->; [|done].
  pose proof (status_counts_le_total (attendees_of st eid)) as Hle.
  rewrite !sum_case_status, <- !status_count_rows in Hle.
  unfold count_attendees in Hz. unfold status_count in *. lia.
Qed.

(** C7: when the event is absent the analytics request is answered 404;
    otherwise it answers a summary whose revenue is 0 when [is_paid] is 0
    and, when [is_paid] is not 0, the JavaScript product of the number of
    the event's attendees with status "paid" and the ticket price.  The
    reported paid_count is that number, or null when the event has no
    attendee at all (and null multiplies as 0). *)
Theorem analytics_revenue (st : store) (eid : string) :
  match select_event st eid with
  | None => NotFound (get_events_analytics st eid)
  | Some e =>
      exists s,
        get_events_analytics st eid = Json s /\
        paid_count s =
          (if decide (count_attendees st eid = 0) then None
           else Some (status_count st eid "paid")) /\
        Js.to_number (paid_count s) = Js.number_of_Z (status_count st eid "paid") /\
        revenue s =
          (if decide (is_paid e = 0) then 0%float
           else PrimFloat.mul (Js.number_of_Z (status_count st eid "paid"))
                              (ticket_price e))
  end.
Proof.
  unfold get_events_analytics.
  destruct (select_event st eid) as [e|]; [|by eexists].
  eexists; split; [reflexivity|]; simpl.
  split_and!.
  - apply sum_rows_status.
  - apply to_number_paid.
  - unfold Js.truthy_int. rewrite to_number_paid.
    case_decide as Hz; [by rewrite Hz|].
    by destruct (Z.eqb_spec (is_paid e) 0).
Qed.

(** C10: when an event has at least one attendee with status "confirmed",
    the analytics report the three buckets as the numbers of "paid",
    "unpaid" and "waitlist" attendees, the "confirmed" ones are in the
    total and in no bucket, so the buckets add up to strictly less than the
    total; when every attendee of the event is "confirmed" (a free event
    that only took RSVPs), the total is positive and the three buckets
    are 0. *)
Theorem analytics_confirmed_in_no_bucket (st : store) (eid : string) (e : event) :
  select_event st eid = Some e ->
  0 < status_count st eid "confirmed" ->
  exists s p u w,
    get_events_analytics st eid = Json s /\
    total_attendees s = count_attendees st eid /\
    paid_count s = Some p /\ p = status_count st eid "paid" /\
    unpaid_count s = Some u /\ u = status_count st eid "unpaid" /\
    waitlist_count s = Some w /\ w = status_count st eid "waitlist" /\
    p + u + w + status_count st eid "confirmed" <= total_attendees s /\
    p + u + w < total_attendees s /\
    ((forall id a, attendees st !! id = Some a -> event_id a = eid ->
                   status a = "confirmed") ->
     0 < total_attendees s /\ p = 0 /\ u = 0 /\ w = 0).
Proof.
  intros He Hconf. unfold get_events_analytics. rewrite He.
  pose proof (status_counts_le_total (attendees_of st eid)) as Hle.
  rewrite !sum_case_status, <- !status_count_rows in Hle.
  assert (count_attendees st eid <> 0) as Hne.
  { unfold count_attendees, status_count in *. lia. }
  eexists _, (status_count st eid "paid"), (status_count st eid "unpaid"),
    (status_count st eid "waitlist").
  split; [reflexivity|]; simpl.
  rewrite !sum_rows_status, !decide_False by done.
  unfold count_attendees in *.
  split_and!; try done.
  - unfold status_count in *. lia.
  - intros Hall.
    assert (status_count st eid "confirmed"
            = Z.of_nat (size (attendees_of st eid))) as Hconf_all.
    { rewrite status_count_rows. do 2 f_equal.
      apply map_filter_id. intros i x Hx.
      apply map_lookup_filter_Some in Hx as [Hx Hev]. simpl in *.
      by apply (Hall i x). }
    unfold status_count in *. lia.
Qed.

(** ** Event creation *)



Example free_event_first_rsvp_confirmed :
  (post_events_rsvp BindsNull (one_event 1 false 0) "e1" (guest "Ada") "a1" 1700000200).2
  = Json {| attendeeId := "a1"; rsvp_status := "confirmed";
            rsvp_message := "RSVP successful" |}.
Proof. reflexivity. Qed.

Example free_event_second_rsvp_full :
  post_events_rsvp BindsNull free_full "e1" (guest "Bo") "a2" 1700000300
  = (free_full, Failure 400 "Event is full").
Proof. vm_compute. reflexivity. Qed.

Example paid_event_rsvps_unpaid :
  status <$> attendees paid_two !! "a1" = Some "unpaid" /\
  status <$> attendees paid_two !! "a2" = Some "unpaid".
Proof. split; reflexivity. Qed.

Example paid_event_one_confirmation :
  get_events_analytics
    (post_attendees_confirm_payment BindsNull paid_two "a1" (Js.Val "pi_1")).1 "e1"
  = Json {| total_attendees := 2; paid_count := Some 1;
            unpaid_count := Some 1; waitlist_count := Some 0;
            revenue := 10%float; analytics_capacity := Js.int 2;
            eventDate := 1800000000%float |}.
Proof. vm_compute. reflexivity. Qed.

Example empty_paid_event_analytics :
  get_events_analytics (one_event 2 true 10) "e1"
  = Json {| total_attendees := 0; paid_count := None;
            unpaid_count := None; waitlist_count := None;
            revenue := 0%float; analytics_capacity := Js.int 2;
            eventDate := 1800000000%float |}.
Proof. vm_compute. reflexivity. Qed.

Lemma capacity_never_exceeded_witness :
  select_event (one_event 1 false 0) "e1" = Some (launch 1 0 0) /\
  Js.le (capacity (launch 1 0 0)) (Js.int 1) /\
  count_attendees (one_event 1 false 0) "e1" <= 1 /\
  count_attendees
    (serve_rsvps BindsNull (one_event 1 false 0)
       [call "a1" "Ada"; call "a2" "Bo"; call "a3" "Cy"]) "e1" <= 1.
Proof.
  assert (select_event (one_event 1 false 0) "e1" = Some (launch 1 0 0)) as He
    by reflexivity.
  assert (Js.le (capacity (launch 1 0 0)) (Js.int 1)) as Hn
    by (vm_compute; discriminate).
  assert (count_attendees (one_event 1 false 0) "e1" <= 1)
    as Hle by (vm_compute; discriminate).
  split_and!; [exact He | exact Hn | exact Hle |].
  exact (proj2 (capacity_never_exceeded BindsNull (one_event 1 false 0) "e1"
                  (launch 1 0 0) 1
                  [call "a1" "Ada"; call "a2" "Bo"; call "a3" "Cy"] He Hn Hle)).
Defined.

Lemma rsvp_rejected_when_full_witness :
  CapacityExceeded
    (post_events_rsvp BindsNull free_full "e1" (guest "Bo") "a2" 1700000300).2 /\
  (post_events_rsvp BindsNull free_full "e1" (guest "Bo") "a2" 1700000300).1 = free_full /\
  attendees (post_events_rsvp BindsNull free_full "e1" (guest "Bo") "a2" 1700000300).1
  = attendees free_full.
Proof.
  apply (rsvp_rejected_when_full BindsNull free_full "e1" (launch 1 0 0)).
  - reflexivity.
  - vm_compute. discriminate.
Defined.

Lemma rsvp_initial_status_witness :
  exists e a,
    select_event (one_event 2 true 10) "e1" = Some e /\
    "unpaid" = (if decide (is_paid e = 0) then "confirmed" else "unpaid") /\
    attendees (one_event 2 true 10) !! "a1" = None /\
    attendees (serve_rsvps BindsNull (one_event 2 true 10) [call "a1" "Ada"]) !! "a1"
    = Some a /\
    event_id a = "e1" /\
    status a = "unpaid" /\
    (forall id, id <> "a1" ->
       attendees (serve_rsvps BindsNull (one_event 2 true 10) [call "a1" "Ada"]) !! id
       = attendees (one_event 2 true 10) !! id).
Proof.
  apply (rsvp_initial_status BindsNull (one_event 2 true 10) "e1" (guest "Ada") "a1"
           1700000200
           (serve_rsvps BindsNull (one_event 2 true 10) [call "a1" "Ada"])
           {| attendeeId := "a1"; rsvp_status := "unpaid";
              rsvp_message := "RSVP successful" |}).
  vm_compute. reflexivity.
Defined.

Lemma rsvp_unknown_event_witness :
  post_events_rsvp BindsNull free_full "e404" (guest "Bo") "a2" 1700000300
  = (free_full, Failure 404 "Event not found") /\
  NotFound (post_events_rsvp BindsNull free_full "e404" (guest "Bo") "a2" 1700000300).2 /\
  attendees (post_events_rsvp BindsNull free_full "e404" (guest "Bo") "a2" 1700000300).1
  = attendees free_full.
Proof.
  apply (rsvp_unknown_event BindsNull free_full "e404"). reflexivity.
Defined.

Lemma confirm_payment_sets_paid_witness :
  let out := post_attendees_confirm_payment BindsNull free_full "a1" (Js.Val "pi_1") in
  out.2 = Json "Payment confirmed" /\
  attendees out.1 !! "a1" =
    Some {| event_id := "e1"; attendee_name := "Ada";
            email := "guest@scene.test"; status := "paid";
            payment_id := Some "pi_1"; custom_answers := Some "{}";
            rsvp_date := 1700000200 |} /\
  (forall j, j <> "a1" -> attendees out.1 !! j = attendees free_full !! j) /\
  events out.1 = events free_full /\
  users out.1 = users free_full.
Proof.
  apply (confirm_payment_sets_paid BindsNull free_full "a1" (Js.Val "pi_1") (Some "pi_1")
           {| event_id := "e1"; attendee_name := "Ada";
              email := "guest@scene.test"; status := "confirmed";
              payment_id := None; custom_answers := Some "{}";
              rsvp_date := 1700000200 |}).
  - reflexivity.
  - reflexivity.
Defined.

Lemma analytics_confirmed_in_no_bucket_witness :
  exists s,
    get_events_analytics free_full "e1" = Json s /\
    total_attendees s = 1 /\
    paid_count s = Some 0 /\ unpaid_count s = Some 0 /\
    waitlist_count s = Some 0.
Proof.
  destruct (analytics_confirmed_in_no_bucket free_full "e1" (launch 1 0 0))
    as (s & p & u & w & Hs & Htot & Hp & -> & Hu & -> & Hw & -> & _).
  - reflexivity.
  - reflexivity.
  - exists s. rewrite Hs, Htot, Hp, Hu, Hw. repeat split.
Defined.


(** ** More on RSVP admission *)

Lemma count_attendees_nonneg st eid : 0 <= count_attendees st eid.
Proof. unfold count_attendees. lia. Qed.

Lemma rsvp_accepts drv st eid e body uuid now n m :
  select_event st eid = Some e ->
  Js.lt (Js.int (count_attendees st eid)) (capacity e) ->
  rsvp_name body = Js.Val n ->
  rsvp_email body = Js.Val m ->
  attendees st !! uuid = None ->
  post_events_rsvp drv st eid body uuid now =
    (with_attendees st (<[uuid := rsvp_row e eid n m body now]> (attendees st)),
     Json {| attendeeId := uuid; rsvp_status := initial_status e;
             rsvp_message := "RSVP successful" |}).
Proof.
  intros He Hroom Hn Hm Hid.
  unfold post_events_rsvp, insert_attendee. rewrite He.
  rewrite (proj2 (number_geb_lt _ _) Hroom).
  rewrite Hn, Hm. simpl. unfold select_event in He. by rewrite Hid, He.
Qed.

(** X1: when the event exists and has room (its attendee count is below
    its capacity), an RSVP whose body carries a name and an email (any
    strings, the empty one included) under a fresh attendee id is accepted;
    the event's attendee count grows by exactly one and the count of every
    other event is unchanged. *)
Theorem rsvp_accepted_when_room (drv : undefined_policy) (st : store)
    (eid : string) (e : event) (body : rsvp_request) (uuid : string) (now : Z)
    (n m : string) :
  select_event st eid = Some e ->
  Js.lt (Js.int (count_attendees st eid)) (capacity e) ->
  rsvp_name body = Js.Val n ->
  rsvp_email body = Js.Val m ->
  attendees st !! uuid = None ->
  let out := post_events_rsvp drv st eid body uuid now in
  out.2 = Json {| attendeeId := uuid; rsvp_status := initial_status e;
                  rsvp_message := "RSVP successful" |} /\
  count_attendees out.1 eid = count_attendees st eid + 1 /\
  (forall other, other <> eid ->
     count_attendees out.1 other = count_attendees st other).
Proof.
  intros He Hroom Hn Hm Hid out. subst out.
  rewrite (rsvp_accepts drv st eid e body uuid now n m) by done. simpl.
  split_and!; [done| |].
  - rewrite count_attendees_insert by done. simpl. by rewrite decide_True.
  - intros other Hne. rewrite count_attendees_insert by done. simpl.
    rewrite decide_False by done. lia.
Qed.

(** X2: when the event exists and has room, an RSVP whose name or email is
    missing or null is answered 500 "RSVP failed" and stores nothing,
    whichever way the driver treats [undefined]. *)
Theorem rsvp_without_name_or_email (drv : undefined_policy) (st : store)
    (eid : string) (e : event) (body : rsvp_request) (uuid : string) (now : Z) :
  select_event st eid = Some e ->
  Js.lt (Js.int (count_attendees st eid)) (capacity e) ->
  (forall n, rsvp_name body <> Js.Val n) \/
  (forall m, rsvp_email body <> Js.Val m) ->
  post_events_rsvp drv st eid body uuid now = (st, Failure 500 "RSVP failed").
Proof.
  intros He Hroom Hmissing.
  unfold post_events_rsvp, insert_attendee. rewrite He.
  rewrite (proj2 (number_geb_lt _ _) Hroom).
  destruct drv, (rsvp_name body) as [| |n], (rsvp_email body) as [| |m],
    (attendees st !! uuid); simpl; try done.
  all: destruct (events st !! eid); try done.
  all: destruct Hmissing as [Hno|Hno]; [by destruct (Hno n)|by destruct (Hno m)].
Qed.

(** X4: an event whose capacity is zero or negative (an integer, a
    fraction or minus infinity) admits nobody: every RSVP for it is
    answered 400 "Event is full" and the store is unchanged. *)
Theorem nonpositive_capacity_admits_nobody (drv : undefined_policy)
    (st : store) (eid : string) (e : event) (body : rsvp_request)
    (uuid : string) (now : Z) :
  select_event st eid = Some e ->
  Js.le (capacity e) (Js.int 0) ->
  post_events_rsvp drv st eid body uuid now = (st, Failure 400 "Event is full").
Proof.
  intros He Hcap. apply (rsvp_full drv st eid e); [done|].
  apply (number_le_int_mono _ 0); [done|]. apply count_attendees_nonneg.
Qed.



(** X5: RSVPs are not deduplicated: the same body (same name and email)
    sent twice under two attendee ids is accepted twice when the event has
    room for two (its count plus one is still below its capacity), and
    takes two places. *)
Theorem rsvp_same_guest_twice (drv : undefined_policy) (st : store)
    (eid : string) (e : event) (body : rsvp_request) (n m : string)
    (id1 id2 : string) (now1 now2 : Z) :
  select_event st eid = Some e ->
  Js.lt (Js.int (count_attendees st eid + 1)) (capacity e) ->
  rsvp_name body = Js.Val n ->
  rsvp_email body = Js.Val m ->
  attendees st !! id1 = None ->
  attendees st !! id2 = None ->
  id1 <> id2 ->
  let first := post_events_rsvp drv st eid body id1 now1 in
  let second := post_events_rsvp drv first.1 eid body id2 now2 in
  (exists r, second.2 = Json r /\ attendeeId r = id2) /\
  email <$> attendees second.1 !! id1 = Some m /\
  email <$> attendees second.1 !! id2 = Some m /\
  count_attendees second.1 eid = count_attendees st eid + 2.
Proof.
  intros He Hroom Hn Hm H1 H2 Hne first second. subst second first.
  assert (Js.lt (Js.int (count_attendees st eid)) (capacity e)) as Hroom0.
  { intros Hfull. apply Hroom.
    apply (number_le_int_mono _ (count_attendees st eid)); [done|lia]. }
  rewrite (rsvp_accepts drv st eid e body id1 now1 n m) by done.
  simpl.
  set (st1 := with_attendees st _).
  assert (count_attendees st1 eid = count_attendees st eid + 1) as Hc1.
  { subst st1. rewrite count_attendees_insert by done. simpl.
    by rewrite decide_True. }
  assert (attendees st1 !! id2 = None) as H2'.
  { subst st1. simpl. by rewrite lookup_insert_ne. }
  rewrite (rsvp_accepts drv st1 eid e body id2 now2 n m);
    [|done|by rewrite Hc1|done|done|done].
  simpl. split_and!.
  - by eexists.
  - rewrite lookup_insert_ne by done. subst st1; simpl.
    by rewrite lookup_insert_eq.
  - by rewrite lookup_insert_eq.
  - rewrite count_attendees_insert by done. simpl.
    rewrite decide_True by done. lia.
Qed.

(** ** What every sequence of write requests keeps *)

Lemma size_filter_alter {A} (P : string * A -> Prop)
    `{!forall kv, Decision (P kv)} (f : A -> A) (m : gmap string A) i a :
  m !! i = Some a ->
  Z.of_nat (size (filter P (alter f i m))) =
    Z.of_nat (size (filter P m))
    - (if decide (P (i, a)) then 1 else 0)
    + (if decide (P (i, f a)) then 1 else 0).
Proof.
  intros Hi.
  assert (m = <[i:=a]> (delete i m)) as Hm by by rewrite insert_delete_id.
  rewrite Hm at 1 2. rewrite alter_insert_eq.
  rewrite !size_filter_insert by apply lookup_delete_eq.
  repeat case_decide; lia.
Qed.

Lemma count_attendees_update_paid st pay id eid :
  count_attendees (update_paid st pay id) eid = count_attendees st eid.
Proof.
  unfold count_attendees, attendees_of, update_paid; simpl.
  destruct (attendees st !! id) as [a|] eqn:Hid.
  - rewrite (size_filter_alter _ _ _ _ a) by done. simpl.
    repeat case_decide; try done; lia.
  - by rewrite alter_absent.
Qed.

Lemma post_events_rsvp_effect drv st eid body uuid now :
  effect st (post_events_rsvp drv st eid body uuid now).1.
Proof.
  destruct (post_events_rsvp drv st eid body uuid now) as [st' [r|code msg]]
    eqn:Hcall; simpl.
  - apply rsvp_accepted_inv in Hcall
      as (e & n & m & He & Hlt & Hid & _ & _ & _ & ->).
    by apply (effect_attendee st uuid eid e n m body now).
  - pose proof (rsvp_failure_keeps_store drv st eid body uuid now code msg)
      as Hkeep.
    rewrite Hcall in Hkeep. simpl in Hkeep. rewrite Hkeep by done.
    constructor.
Qed.

Lemma post_events_effect drv st userId body id now :
  effect st (post_events drv st userId body id now).1.
Proof.
  unfold post_events, insert_event.
  destruct (bind drv (body_name body)) as [name|]; simpl; [|constructor].
  destruct (bind drv (body_description body)); simpl; [|constructor].
  destruct (bind drv (body_location body)); simpl; [|constructor].
  destruct (bind drv (body_capacity body)) as [cap|]; simpl; [|constructor].
  destruct (events st !! id) eqn:Hid, (users st !! userId), name,
    (bind_number (PrimFloat.div (body_dateTime body) 1000)), cap;
    simpl; try constructor.
  done.
Qed.

Lemma post_auth_register_effect drv sign st body hashed userId now :
  effect st (post_auth_register drv sign st body hashed userId now).1.
Proof.
  unfold post_auth_register, insert_user.
  destruct (reg_password body); try constructor.
  destruct (bind drv (reg_email body)) as [[m|]|],
    (bind drv (reg_name body)) as [[n|]|], (users st !! userId);
    try constructor.
  case_decide; constructor.
Qed.

Lemma serve_effect drv sign st r : effect st (serve drv sign st r).
Proof.
  destruct r; simpl.
  - apply post_auth_register_effect.
  - apply post_events_effect.
  - apply post_events_rsvp_effect.
  - unfold post_attendees_confirm_payment.
    destruct (bind drv paymentId); simpl; constructor.
Qed.

(** A property kept by every effect is kept by every run of requests. *)
Lemma serve_all_keeps (P : store -> Prop) drv sign rs :
  (forall st st', effect st st' -> P st -> P st') ->
  forall st, P st -> P (serve_all drv sign st rs).
Proof.
  intros Hstep. induction rs as [|r rs IH]; intros st HP; [done|].
  apply (IH (serve drv sign st r)).
  by apply (Hstep st), HP; apply serve_effect.
Qed.

(** X6: no request edits or deletes an event: an event row that exists is
    still there, unchanged, after any sequence of registrations, event
    creations, RSVPs and payment confirmations. *)
Theorem events_never_change (drv : undefined_policy)
    (sign : string -> string -> string) (st : store) (rs : list request)
    (eid : string) (e : event) :
  select_event st eid = Some e ->
  select_event (serve_all drv sign st rs) eid = Some e.
Proof.
  apply (serve_all_keeps (fun st => select_event st eid = Some e)).
  intros s s' Heff He. unfold select_event in *.
  destruct Heff; simpl; try done.
  rewrite lookup_insert_ne; [done|congruence].
Qed.

(** X7: let [n] be a count that reaches the capacity of an event (the
    capacity itself when it is an integer, 2 for the capacity 1.5).  If the
    event has at most [n] attendees, it still has at most [n] after any
    sequence of registrations, event creations, RSVPs and payment
    confirmations, in any order. *)
Theorem capacity_kept_by_all_requests (drv : undefined_policy)
    (sign : string -> string -> string) (st : store) (rs : list request)
    (eid : string) (e : event) (n : Z) :
  select_event st eid = Some e ->
  Js.le (capacity e) (Js.int n) ->
  count_attendees st eid <= n ->
  count_attendees (serve_all drv sign st rs) eid <= n.
Proof.
  intros He Hn Hle.
  apply (serve_all_keeps
           (fun st => select_event st eid = Some e /\
                      count_attendees st eid <= n));
    [|done].
  clear -Hn. intros s s' Heff [He Hle]. unfold select_event in *.
  destruct Heff as [|us|id e' Hid|uuid eid' e' a m body now He' Hroom Hid|pay id];
    simpl; try done.
  - split; [|done]. rewrite lookup_insert_ne; [done|congruence].
  - split; [done|]. rewrite count_attendees_insert by done. simpl.
    case_decide as Heq; [|lia]. subst eid'.
    unfold select_event in He'. rewrite He in He'. injection He' as <-.
    destruct (decide (count_attendees s eid = n)) as [Hfull|]; [|lia].
    destruct Hroom. by rewrite Hfull.
  - split; [done|]. by rewrite count_attendees_update_paid.
Qed.

(** X8: no request deletes an attendee or moves one to another event: after
    any sequence of requests an attendee row is still there with the same
    event, name, email, answers and RSVP date; only its status and payment
    reference may differ. *)
Theorem attendees_never_removed (drv : undefined_policy)
    (sign : string -> string -> string) (st : store) (rs : list request)
    (id : string) (a : attendee) :
  attendees st !! id = Some a ->
  exists a',
    attendees (serve_all drv sign st rs) !! id = Some a' /\
    event_id a' = event_id a /\ attendee_name a' = attendee_name a /\
    email a' = email a /\ custom_answers a' = custom_answers a /\
    rsvp_date a' = rsvp_date a.
Proof.
  intros Ha.
  apply (serve_all_keeps
           (fun st => exists a',
              attendees st !! id = Some a' /\
              event_id a' = event_id a /\ attendee_name a' = attendee_name a /\
              email a' = email a /\ custom_answers a' = custom_answers a /\
              rsvp_date a' = rsvp_date a)); [|by exists a].
  clear. intros s s' Heff (a' & Ha' & Hsame).
  destruct Heff as [|us|i e' Hi|uuid eid' e' n m body now He' Hroom Hid|pay i];
    simpl; try by exists a'.
  - exists a'. split; [|done]. rewrite lookup_insert_ne; [done|congruence].
  - destruct (decide (i = id)) as [->|Hne].
    + exists (mark_paid pay a'). by rewrite lookup_alter_eq, Ha'.
    + exists a'. by rewrite lookup_alter_ne.
Qed.

Lemma effect_keeps_referential st st' :
  effect st st' -> referential st -> referential st'.
Proof.
  intros Heff Href i a.
  destruct Heff as [|us|id e' Hid|uuid eid' e' n m body now He' Hroom Hid|pay id];
    simpl; try apply Href.
  - intros Ha. destruct (Href i a Ha) as [e He].
    exists e. rewrite lookup_insert_ne; [done|congruence].
  - intros Ha. apply lookup_insert_Some in Ha as [[<- <-]|[_ Ha]]; simpl.
    + by exists e'.
    + by apply (Href i).
  - intros Ha. apply lookup_alter_Some in Ha as [(<- & a0 & Ha0 & ->)|[_ Ha]].
    + simpl. by apply (Href id).
    + by apply (Href i).
Qed.

(** X9: every attendee row refers to an existing event, and this is kept by
    any sequence of requests (an RSVP is stored only for an event that
    exists, and events are never deleted). *)
Theorem referential_integrity_kept (drv : undefined_policy)
    (sign : string -> string -> string) (st : store) (rs : list request) :
  referential st -> referential (serve_all drv sign st rs).
Proof.
  apply (serve_all_keeps referential). apply effect_keeps_referential.
Qed.

(** X10: the handlers only ever write the statuses "unpaid", "confirmed" and
    "paid": from a store whose attendees carry these, any sequence of
    requests gives a store whose attendees carry these, where the analytics
    of every event report the waitlist bucket as null or 0. *)
Theorem no_request_waitlists (drv : undefined_policy)
    (sign : string -> string -> string) (st : store) (rs : list request) :
  known_statuses st ->
  known_statuses (serve_all drv sign st rs) /\
  forall eid s,
    get_events_analytics (serve_all drv sign st rs) eid = Json s ->
    waitlist_count s = None \/ waitlist_count s = Some 0.
Proof.
  intros Hknown.
  assert (known_statuses (serve_all drv sign st rs)) as Hall.
  { revert st Hknown. apply (serve_all_keeps known_statuses).
    clear. intros s s' Heff Hk i a.
    destruct Heff as [|us|id e' Hid|uuid eid' e' n m body now He' Hroom Hid|pay id];
      simpl; try apply Hk.
    - intros Ha. apply lookup_insert_Some in Ha as [[<- <-]|[_ Ha]]; simpl.
      + unfold initial_status. destruct (Js.truthy_int _); auto.
      + by apply (Hk i).
    - intros Ha. apply lookup_alter_Some in Ha as [(<- & a0 & Ha0 & ->)|[_ Ha]].
      + simpl. auto.
      + by apply (Hk i). }
  split; [done|]. intros eid s.
  unfold get_events_analytics.
  destruct (select_event _ eid); [|discriminate].
  intros [= <-]. simpl. rewrite sum_rows_status.
  case_decide; [by left|right]. f_equal.
  unfold status_count.
  rewrite (proj2 (map_size_empty_iff _)); [done|].
  apply map_empty_filter_2. intros i a Ha [_ Hw]. simpl in Hw.
  destruct (Hall i a Ha) as [Hs|[Hs|Hs]]; congruence.
Qed.

(** ** Payments and reminders *)

Lemma status_count_update_paid st pay id a eid s :
  attendees st !! id = Some a ->
  status_count (update_paid st pay id) eid s =
    status_count st eid s
    - (if decide (event_id a = eid /\ status a = s) then 1 else 0)
    + (if decide (event_id a = eid /\ "paid" = s) then 1 else 0).
Proof.
  intros Ha. unfold status_count, update_paid; simpl.
  by rewrite (size_filter_alter _ _ _ _ a).
Qed.

(** X11: confirming a payment (with a reference that is bound) for an
    attendee who is not yet "paid" moves exactly that attendee: the paid
    count of their event grows by one, the count of their former status
    drops by one, and no event's attendee count changes, so no place is
    freed or taken. *)
Theorem confirm_payment_moves_one_to_paid (drv : undefined_policy)
    (st : store) (id : string) (paymentId : Js.field string)
    (ref : option string) (a : attendee) :
  bind drv paymentId = Some ref ->
  attendees st !! id = Some a ->
  status a <> "paid" ->
  let st' := (post_attendees_confirm_payment drv st id paymentId).1 in
  status_count st' (event_id a) "paid"
    = status_count st (event_id a) "paid" + 1 /\
  status_count st' (event_id a) (status a)
    = status_count st (event_id a) (status a) - 1 /\
  (forall eid, count_attendees st' eid = count_attendees st eid).
Proof.
  intros Hbind Ha Hnot st'. subst st'.
  unfold post_attendees_confirm_payment. rewrite Hbind. simpl.
  split_and!.
  - rewrite (status_count_update_paid st ref id a) by done.
    rewrite decide_False by (intros [_ ?]; done).
    rewrite decide_True by done. lia.
  - rewrite (status_count_update_paid st ref id a) by done.
    rewrite decide_True by done.
    rewrite decide_False by (intros [_ ?]; done). lia.
  - intros eid. apply count_attendees_update_paid.
Qed.

(** X12: a second confirmation with another reference overwrites the first:
    the store is the one a single confirmation with the second reference
    gives, and the attendee's payment_id is the second reference. *)
Theorem confirm_payment_last_reference_wins (drv : undefined_policy)
    (st : store) (id : string) (p1 p2 : string) (a : attendee) :
  attendees st !! id = Some a ->
  let first := (post_attendees_confirm_payment drv st id (Js.Val p1)).1 in
  let both := (post_attendees_confirm_payment drv first id (Js.Val p2)).1 in
  both = (post_attendees_confirm_payment drv st id (Js.Val p2)).1 /\
  payment_id <$> attendees both !! id = Some (Some p2).
Proof.
  intros Ha first both. subst both first. simpl.
  unfold update_paid, with_attendees; simpl. split.
  - f_equal. apply map_eq. intros j.
    destruct (decide (id = j)) as [<-|Hne].
    + rewrite !lookup_alter_eq. by destruct (attendees st !! id).
    + by rewrite !lookup_alter_ne.
  - by rewrite !lookup_alter_eq, Ha.
Qed.

Lemma reminders_count_is_unpaid st eid :
  post_send_reminders st eid =
    Json {| reminders_message :=
              "Reminders sent to "
              +:+ decimal (Z.to_nat (status_count st eid "unpaid"))
              +:+ " attendees";
            reminders_count := status_count st eid "unpaid" |}.
Proof.
  unfold post_send_reminders, unpaid_attendees, status_count.
  by rewrite Nat2Z.id.
Qed.

(** X14: the reminder count of an event is the analytics' unpaid bucket:
    when the event exists and has at least one attendee the two numbers are
    equal, and when it has none the analytics report null where the
    reminders report 0. *)
Theorem reminders_match_analytics (st : store) (eid : string) (e : event) :
  select_event st eid = Some e ->
  exists s r,
    get_events_analytics st eid = Json s /\
    post_send_reminders st eid = Json r /\
    unpaid_count s =
      (if decide (count_attendees st eid = 0) then None
       else Some (reminders_count r)) /\
    (count_attendees st eid = 0 -> reminders_count r = 0).
Proof.
  intros He. unfold get_events_analytics. rewrite He.
  rewrite reminders_count_is_unpaid.
  eexists _, _. split_and!; [reflexivity|reflexivity| |]; simpl.
  - apply sum_rows_status.
  - intros Hz. pose proof (status_counts_le_total (attendees_of st eid)) as Hle.
    rewrite !sum_case_status, <- !status_count_rows in Hle.
    unfold count_attendees in Hz. unfold status_count in *. lia.
Qed.

(** X15: send-reminders does not look the event up: for an id with no event
    row (in a store where attendee rows refer to existing events) it
    answers 200 with "Reminders sent to 0 attendees", where the analytics
    route answers 404. *)
Theorem reminders_for_unknown_event (st : store) (eid : string) :
  referential st ->
  select_event st eid = None ->
  post_send_reminders st eid =
    Json {| reminders_message := "Reminders sent to 0 attendees";
            reminders_count := 0 |} /\
  get_events_analytics st eid = Failure 404 "Event not found".
Proof.
  intros Href He. split.
  - unfold post_send_reminders, unpaid_attendees.
    rewrite (map_empty_filter_2 _ (attendees st)); [done|].
    intros i a Ha [Hev _]. simpl in Hev.
    destruct (Href i a Ha) as [e' He']. unfold select_event in He.
    rewrite Hev in He'. congruence.
  - unfold get_events_analytics. by rewrite He.
Qed.

(** X16: guests of a free event are never reminded: from a store where
    attendee rows refer to existing events and no attendee of a free event
    is "unpaid" (the empty attendee table, for one), after any sequence of
    requests the reminders of every free event go to 0 attendees. *)
Theorem free_event_never_reminded (drv : undefined_policy)
    (sign : string -> string -> string) (st : store) (rs : list request)
    (eid : string) (e : event) :
  referential st ->
  free_events_owe_nothing st ->
  select_event (serve_all drv sign st rs) eid = Some e ->
  is_paid e = 0 ->
  post_send_reminders (serve_all drv sign st rs) eid =
    Json {| reminders_message := "Reminders sent to 0 attendees";
            reminders_count := 0 |}.
Proof.
  intros Href Hfree He Hpaid.
  assert (referential (serve_all drv sign st rs) /\
          free_events_owe_nothing (serve_all drv sign st rs)) as [_ Hfree'].
  { apply (serve_all_keeps
             (fun st => referential st /\ free_events_owe_nothing st));
      [|done].
    clear. intros s s' Heff [Href Hfree].
    split; [by apply (effect_keeps_referential s)|].
    intros i a e.
    destruct Heff as [|us|id e' Hid|uuid eid' e' n m body now He' Hroom Hid|pay id];
      simpl; try apply Hfree.
    - intros Ha He. destruct (Href i a Ha) as [e0 He0].
      rewrite lookup_insert_ne in He by congruence. by apply (Hfree i a e).
    - intros Ha. apply lookup_insert_Some in Ha as [[<- <-]|[_ Ha]]; simpl.
      + unfold select_event in He'. rewrite He'. intros [= <-] Hz.
        unfold initial_status, Js.truthy_int. by rewrite Hz.
      + by apply (Hfree i).
    - intros Ha.
      apply lookup_alter_Some in Ha as [(<- & a0 & Ha0 & ->)|[_ Ha]].
      + simpl. done.
      + by apply (Hfree i). }
  unfold post_send_reminders, unpaid_attendees.
  rewrite (map_empty_filter_2 _ (attendees _)); [done|].
  intros i a Ha [Hev Hst]. simpl in *.
  apply (Hfree' i a e Ha); [|done|done].
  unfold select_event in He. by rewrite Hev.
Qed.

(** X17: confirming the payment of an "unpaid" attendee takes exactly one
    attendee off the reminders of their event. *)
Theorem confirmed_payment_stops_reminder (drv : undefined_policy)
    (st : store) (id : string) (paymentId : Js.field string)
    (ref : option string) (a : attendee) :
  bind drv paymentId = Some ref ->
  attendees st !! id = Some a ->
  status a = "unpaid" ->
  exists before after,
    post_send_reminders st (event_id a) = Json before /\
    post_send_reminders (post_attendees_confirm_payment drv st id paymentId).1
      (event_id a) = Json after /\
    reminders_count after = reminders_count before - 1.
Proof.
  intros Hbind Ha Hst. rewrite !reminders_count_is_unpaid.
  eexists _, _. split_and!; [reflexivity|reflexivity|]. simpl.
  unfold post_attendees_confirm_payment. rewrite Hbind. simpl.
  rewrite (status_count_update_paid st ref id a) by done.
  rewrite decide_True by done.
  rewrite decide_False by (intros [_ ?]; done). lia.
Qed.

(** ** The token check *)

Lemma split_without sep s : has_char sep s = false -> split sep s = [s].
Proof.
  induction s as [|c s IH]; simpl; [done|].
  destruct (Ascii.eqb c sep); simpl; [done|].
  intros Hs. by rewrite IH.
Qed.

Lemma split_at_first sep a b :
  has_char sep a = false ->
  split sep (a +:+ String sep b) = a :: split sep b.
Proof.
  induction a as [|c a IH]; simpl.
  - intros _. by rewrite Ascii.eqb_refl.
  - destruct (Ascii.eqb c sep); simpl; [done|].
    intros Ha. by rewrite IH.
Qed.

Lemma append_empty (s : string) : s +:+ "" = s.
Proof.
  induction s as [|c s IH]; [done|].
  change (String c (s +:+ "") = String c s). by rewrite IH.
Qed.

Lemma truthy_with_sep a sep b : Js.truthy_string (a +:+ String sep b) = true.
Proof. by destruct a. Qed.

(** X18: a request is answered 401, whatever [jwt.verify] would say of any
    token, when it has no Authorization header, when the header contains no
    space, and when the first space of the header is followed by another
    space (as in ["Bearer  <token>"]). *)
Theorem auth_401_without_second_word {U : Type}
    (verify : string -> option U) (h rest : string) :
  has_char " " h = false ->
  authenticateToken verify None = SendStatus 401 /\
  authenticateToken verify (Some h) = SendStatus 401 /\
  authenticateToken verify (Some (h +:+ "  " +:+ rest)) = SendStatus 401.
Proof.
  intros Hh. split_and!; [done| |].
  - unfold authenticateToken, header_token.
    destruct (Js.truthy_string h) eqn:Ht.
    + by rewrite split_without.
    + by rewrite Ht.
  - unfold authenticateToken, header_token.
    change (h +:+ "  " +:+ rest) with (h +:+ String " " (String " " rest)).
    rewrite truthy_with_sep, split_at_first by done. simpl.
    by destruct (split " " rest).
Qed.

(** X19: the scheme word of the Authorization header is not checked: for a
    header made of any space-free first word (["Bearer"], ["Basic"], or the
    empty word), one space, a non-empty space-free token, and then either
    nothing or a space and anything, the outcome is that of [jwt.verify] on
    the token: 403 when it fails, [next()] with its payload when it
    succeeds. *)
Theorem auth_scheme_not_checked {U : Type} (verify : string -> option U)
    (scheme t rest : string) :
  has_char " " scheme = false ->
  has_char " " t = false ->
  t <> "" ->
  rest = "" \/ (exists r, rest = String " " r) ->
  authenticateToken verify (Some (scheme +:+ " " +:+ t +:+ rest)) =
    match verify t with
    | Some user => Next user
    | None => SendStatus 403
    end.
Proof.
  intros Hs Ht Hne Hrest. unfold authenticateToken, header_token.
  change (scheme +:+ " " +:+ t +:+ rest)
    with (scheme +:+ String " " (t +:+ rest)).
  rewrite truthy_with_sep, split_at_first by done.
  assert (exists pieces, split " " (t +:+ rest) = t :: pieces) as [ps ->].
  { destruct Hrest as [->|[r ->]].
    - exists []. rewrite append_empty. by apply split_without.
    - eexists. by apply split_at_first. }
  simpl. by destruct t.
Qed.

(** ** Accounts *)

(** X20: registering with an email that a user row already has is answered
    500 "Registration failed" and the store is unchanged. *)
Theorem register_duplicate_email (drv : undefined_policy)
    (sign : string -> string -> string) (st : store) (body : register_request)
    (hashed userId : string) (now : Z) (other : string) (u : user) :
  users st !! other = Some u ->
  reg_email body = Js.Val (user_email u) ->
  post_auth_register drv sign st body hashed userId now
    = (st, Failure 500 "Registration failed").
Proof.
  intros Hu Hmail. unfold post_auth_register, insert_user.
  destruct (reg_password body); try done.
  rewrite Hmail. simpl.
  destruct (bind drv (reg_name body)) as [[n|]|]; try done;
    destruct (users st !! userId); try done.
  rewrite decide_False; [done|].
  intros Hempty.
  assert (users_with_email st (user_email u) !! other = Some u) as Hin
    by by apply map_lookup_filter_Some.
  by rewrite Hempty in Hin.
Qed.

Lemma register_accepted_inv drv sign st body hashed userId now st' r :
  post_auth_register drv sign st body hashed userId now = (st', Json r) ->
  exists pw m n,
    reg_password body = Js.Val pw /\ reg_email body = Js.Val m /\
    reg_name body = Js.Val n /\
    users st !! userId = None /\
    users_with_email st m = ∅ /\
    r = {| token := sign userId m;
           session_user := {| account_id := userId; account_email := m;
                              account_name := n |} |} /\
    st' = with_users st
            (<[userId := {| user_email := m; password_hash := hashed;
                            user_name := n; user_created_at := now |}]>
               (users st)).
Proof.
  unfold post_auth_register, insert_user.
  destruct (reg_password body) as [| |pw]; try discriminate.
  destruct drv, (reg_email body) as [| |m], (reg_name body) as [| |n];
    simpl; try discriminate.
  all: destruct (users st !! userId) eqn:Hid; try discriminate.
  all: case_decide; try discriminate.
  all: intros [= <- <-]; by exists pw, m, n.
Qed.

(** X21: register then log in: after an accepted registration, logging in
    with the same email and password (which bcrypt accepts against the
    stored hash) succeeds and returns the account that was registered: same
    id, email and name. *)
Theorem register_then_login (drv : undefined_policy)
    (compare : string -> string -> bool)
    (sign sign' : string -> string -> string) (st : store)
    (body : register_request) (hashed userId : string) (now : Z)
    (st' : store) (r : session) (pw : string) :
  post_auth_register drv sign st body hashed userId now = (st', Json r) ->
  reg_password body = Js.Val pw ->
  compare pw hashed = true ->
  exists r',
    post_auth_login drv compare sign' st'
      {| login_email := reg_email body; login_password := reg_password body |}
    = Json r' /\
    session_user r' = session_user r /\
    account_id (session_user r') = userId.
Proof.
  intros Hreg Hpw Hcmp.
  apply register_accepted_inv in Hreg
    as (pw' & m & n & Hpw' & Hm & Hn & Hid & Hfree & -> & ->).
  unfold post_auth_login, select_user_by_email, users_with_email in *; simpl.
  rewrite Hm, Hpw. simpl.
  rewrite map_filter_insert_True by done.
  rewrite Hfree, insert_empty, map_to_list_singleton. simpl.
  rewrite Hcmp. by eexists.
Qed.

(** X22: a login with an email and a string password either succeeds, and
    then some user row has that email and a hash that bcrypt accepts for
    the password, and the account returned is that row's; or it is answered
    400 "Invalid credentials", the same answer for an unknown email as for
    a wrong password. *)
Theorem login_succeeds_only_on_match (drv : undefined_policy)
    (compare : string -> string -> bool) (sign : string -> string -> string)
    (st : store) (m pw : string) :
  match post_auth_login drv compare sign st
          {| login_email := Js.Val m; login_password := Js.Val pw |} with
  | Json r =>
      exists u,
        users st !! account_id (session_user r) = Some u /\
        user_email u = m /\
        compare pw (password_hash u) = true /\
        account_email (session_user r) = m /\
        account_name (session_user r) = user_name u
  | Failure code msg => code = 400 /\ msg = "Invalid credentials"
  end.
Proof.
  unfold post_auth_login, select_user_by_email; simpl.
  destruct (head _) as [[id u]|] eqn:Hhead; [|done].
  apply head_Some_elem_of, elem_of_map_to_list in Hhead.
  apply map_lookup_filter_Some in Hhead as [Hu Hmail]. simpl in Hmail.
  destruct (compare pw (password_hash u)) eqn:Hcmp; [|done].
  by exists u.
Qed.

(** ** The fallback promo headline *)

(** X23: the short headline of the fallback promo is the event name up to
    its first colon: a colon-free name is used whole, whatever its length
    (the 30-character cut does not apply), and a name that starts with a
    non-empty colon-free part followed by a colon gives that part. *)
Theorem short_name_is_text_before_colon (p : string) :
  has_char ":" p = false ->
  short_name p = p /\
  (p <> "" -> forall rest, short_name (p +:+ ":" +:+ rest) = p).
Proof.
  intros Hp. unfold short_name. split.
  - rewrite split_without by done. simpl. by destruct p.
  - intros Hne rest.
    change (p +:+ ":" +:+ rest) with (p +:+ String ":" rest).
    rewrite split_at_first by done. simpl. by destruct p.
Qed.

(** ** Event pages and event creation *)

(** X25: an accepted RSVP shows on the event page: the page of the event
    lists the rows it listed before plus the new attendee under the
    returned id, with the returned status, and the event part of the page
    is unchanged. *)
Theorem rsvp_visible_on_event_page (drv : undefined_policy) (st : store)
    (eid : string) (body : rsvp_request) (uuid : string) (now : Z)
    (st' : store) (r : rsvp_accepted) :
  post_events_rsvp drv st eid body uuid now = (st', Json r) ->
  exists before after a,
    get_event st eid = Json before /\
    get_event st' eid = Json after /\
    page_event after = page_event before /\
    page_attendees after = <[attendeeId r := a]> (page_attendees before) /\
    page_attendees before !! attendeeId r = None /\
    status a = rsvp_status r.
Proof.
  intros Hcall.
  apply rsvp_accepted_inv in Hcall
    as (e & n & m & He & _ & Hid & _ & _ & -> & ->).
  unfold get_event, select_event in *. simpl. rewrite He.
  eexists _, _, _. split_and!; try reflexivity; simpl.
  - unfold attendees_of; simpl. by rewrite map_filter_insert_True.
  - by apply map_lookup_filter_None_2; left.
  - done.
Qed.

Lemma post_events_accepted_inv drv st userId body id now st' r :
  post_events drv st userId body id now = (st', Json r) ->
  exists e c,
    events st !! id = None /\
    is_Some (users st !! userId) /\
    body_capacity body = Js.Val c /\
    capacity e = c /\
    is_paid e = (if body_isPaid body then 1 else 0) /\
    user_id e = userId /\
    st' = with_events st (<[id := e]> (events st)).
Proof.
  unfold post_events, insert_event.
  destruct drv, (body_name body) as [| |n], (body_description body) as [| |d],
    (body_location body) as [| |l], (body_capacity body) as [| |c],
    (events st !! id) eqn:Hid, (users st !! userId),
    (bind_number (PrimFloat.div (body_dateTime body) 1000)) as [date|];
    simpl; try discriminate.
  all: intros [= <- <-]; eexists _, c; split_and!; try done; by eexists.
Qed.

(** X26: create, then RSVP: in a store where attendee rows refer to
    existing events, once an event is created with a capacity of at least
    1, the first complete RSVP for it under a fresh attendee id is accepted,
    with status "unpaid" when the event was created with a truthy [isPaid]
    and "confirmed" otherwise. *)
Theorem event_created_then_first_rsvp (drv : undefined_policy) (st : store)
    (userId : string) (body : event_request) (id : string) (now : Z)
    (st' : store) (r : event_created) (guest_body : rsvp_request)
    (n m uuid : string) (later : Z) :
  referential st ->
  post_events drv st userId body id now = (st', Json r) ->
  (exists c, body_capacity body = Js.Val c /\ Js.le (Js.int 1) c) ->
  rsvp_name guest_body = Js.Val n ->
  rsvp_email guest_body = Js.Val m ->
  attendees st !! uuid = None ->
  (post_events_rsvp drv st' (eventId r) guest_body uuid later).2 =
    Json {| attendeeId := uuid;
            rsvp_status := if body_isPaid body then "unpaid" else "confirmed";
            rsvp_message := "RSVP successful" |}.
Proof.
  intros Href Hcreate (c & Hc & Hc1) Hn Hm Hfresh.
  assert (eventId r = id) as ->.
  { revert Hcreate. unfold post_events.
    destruct (_ ≫= _); [|discriminate]. by intros [= _ <-]. }
  apply post_events_accepted_inv in Hcreate
    as (e & c' & Hid & _ & Hc' & Hcap & Hpaid & _ & ->).
  rewrite Hc in Hc'. injection Hc' as <-.
  assert (count_attendees (with_events st (<[id:=e]> (events st))) id = 0)
    as Hzero.
  { unfold count_attendees, attendees_of; simpl.
    rewrite (map_empty_filter_2 _ (attendees st)); [done|].
    intros i a Ha Hev. simpl in Hev.
    destruct (Href i a Ha) as [e' He']. rewrite Hev in He'. congruence. }
  rewrite (rsvp_accepts drv _ id e guest_body uuid later n m); try done.
  - simpl. unfold initial_status, Js.truthy_int. rewrite Hpaid.
    by destruct (body_isPaid body).
  - unfold select_event; simpl. apply lookup_insert_eq.
  - rewrite Hzero, Hcap. intros Hfull.
    pose proof (number_le_trans _ _ _ Hc1 Hfull) as Habs.
    apply (proj1 (number_le_int 1 0)) in Habs. lia.
Qed.

(** X27: an event creation by a user id with no user row, or under an event
    id that is taken, or without a name, or without a capacity, is answered
    500 "Failed to create event" and the store is unchanged. *)
Theorem post_events_rejected (drv : undefined_policy) (st : store)
    (userId : string) (body : event_request) (id : string) (now : Z) :
  users st !! userId = None \/
  is_Some (events st !! id) \/
  (forall n, body_name body <> Js.Val n) \/
  (forall c, body_capacity body <> Js.Val c) ->
  post_events drv st userId body id now
    = (st, Failure 500 "Failed to create event").
Proof.
  intros Hbad.
  destruct (post_events drv st userId body id now) as [st' [r|code msg]]
    eqn:Hcall.
  - exfalso.
    unfold post_events, insert_event in Hcall.
    destruct drv, (body_name body) as [| |n], (body_description body) as [| |d],
      (body_location body) as [| |l], (body_capacity body) as [| |c],
      (events st !! id) eqn:Hid, (users st !! userId) eqn:Hu,
      (bind_number (PrimFloat.div (body_dateTime body) 1000));
      simpl in Hcall; try discriminate.
    all: destruct Hbad as [?|[[? ?]|[Hno|Hno]]]; try done;
           try (by destruct (Hno n)); try (by destruct (Hno c)).
  - revert Hcall. unfold post_events.
    destruct (_ ≫= _); [discriminate|]. by intros [= <- <- <-].
Qed.

(** ** The properties above, run on the scenarios *)

Lemma no_attendee_referential st : attendees st = ∅ -> referential st.
Proof. intros Hnone id a. by rewrite Hnone, lookup_empty. Qed.

Lemma no_attendee_known_statuses st : attendees st = ∅ -> known_statuses st.
Proof. intros Hnone id a. by rewrite Hnone, lookup_empty. Qed.

Lemma no_attendee_owes_nothing st :
  attendees st = ∅ -> free_events_owe_nothing st.
Proof. intros Hnone id a e. by rewrite Hnone, lookup_empty. Qed.

Lemma rsvp_accepted_when_room_witness :
  count_attendees
    (post_events_rsvp BindsNull (one_event 2 true 10) "e1" (guest "Ada") "a1"
       1700000200).1 "e1"
  = count_attendees (one_event 2 true 10) "e1" + 1.
Proof.
  destruct (rsvp_accepted_when_room BindsNull (one_event 2 true 10) "e1"
              (launch 2 1 10) (guest "Ada") "a1" 1700000200 "Ada"
              "guest@scene.test") as (_ & Hcount & _);
    [reflexivity|apply number_geb_lt; reflexivity|reflexivity|reflexivity
    |reflexivity|].
  exact Hcount.
Defined.

Lemma rsvp_without_name_or_email_witness :
  post_events_rsvp Throws (one_event 2 true 10) "e1"
    {| rsvp_name := Js.Undefined; rsvp_email := Js.Val "guest@scene.test";
       body_answers := None |} "a1" 1700000200
  = (one_event 2 true 10, Failure 500 "RSVP failed").
Proof.
  apply (rsvp_without_name_or_email Throws (one_event 2 true 10) "e1"
           (launch 2 1 10)); [reflexivity|apply number_geb_lt; reflexivity|].
  left. intros n. discriminate.
Defined.


Lemma nonpositive_capacity_admits_nobody_witness :
  post_events_rsvp BindsNull (one_event 0 false 0) "e1" (guest "Ada") "a1"
    1700000200
  = (one_event 0 false 0, Failure 400 "Event is full").
Proof.
  apply (nonpositive_capacity_admits_nobody BindsNull (one_event 0 false 0)
           "e1" (launch 0 0 0)); [reflexivity|vm_compute; discriminate].
Defined.

Lemma rsvp_same_guest_twice_witness :
  count_attendees
    (post_events_rsvp BindsNull
       (post_events_rsvp BindsNull (one_event 2 false 0) "e1" (guest "Ada")
          "a1" 1700000200).1
       "e1" (guest "Ada") "a2" 1700000300).1 "e1"
  = count_attendees (one_event 2 false 0) "e1" + 2.
Proof.
  destruct (rsvp_same_guest_twice BindsNull (one_event 2 false 0) "e1"
              (launch 2 0 0) (guest "Ada") "Ada" "guest@scene.test"
              "a1" "a2" 1700000200 1700000300) as (_ & _ & _ & Hcount);
    [reflexivity|apply number_geb_lt; reflexivity|reflexivity|reflexivity
    |reflexivity|reflexivity|discriminate|].
  exact Hcount.
Defined.

Lemma events_never_change_witness :
  select_event (serve_all BindsNull dotted (one_event 2 true 10) busy_day) "e1"
  = Some (launch 2 1 10).
Proof.
  apply (events_never_change BindsNull dotted (one_event 2 true 10) busy_day).
  reflexivity.
Defined.

Lemma capacity_kept_by_all_requests_witness :
  count_attendees
    (serve_all BindsNull dotted (one_event_at one_and_a_half true 10) busy_day)
    "e1" <= 2.
Proof.
  apply (capacity_kept_by_all_requests BindsNull dotted
           (one_event_at one_and_a_half true 10) busy_day "e1"
           (launch_at one_and_a_half 1 10) 2);
    [reflexivity|vm_compute; discriminate|vm_compute; discriminate].
Defined.

Lemma attendees_never_removed_witness :
  exists a',
    attendees (serve_all BindsNull dotted paid_two busy_day) !! "a1" = Some a' /\
    event_id a' = "e1" /\ attendee_name a' = "Ada" /\
    email a' = "guest@scene.test" /\ custom_answers a' = Some "{}" /\
    rsvp_date a' = 1700000200.
Proof.
  apply (attendees_never_removed BindsNull dotted paid_two busy_day "a1"
           ada_unpaid).
  reflexivity.
Defined.

Lemma referential_integrity_kept_witness :
  referential (serve_all BindsNull dotted (one_event 2 true 10) busy_day).
Proof.
  apply (referential_integrity_kept BindsNull dotted (one_event 2 true 10)
           busy_day).
  apply no_attendee_referential. reflexivity.
Defined.

Lemma no_request_waitlists_witness :
  known_statuses (serve_all BindsNull dotted (one_event 2 true 10) busy_day).
Proof.
  apply (no_request_waitlists BindsNull dotted (one_event 2 true 10) busy_day).
  apply no_attendee_known_statuses. reflexivity.
Defined.

Lemma confirm_payment_moves_one_to_paid_witness :
  status_count
    (post_attendees_confirm_payment BindsNull paid_two "a1" (Js.Val "pi_1")).1
    "e1" "paid"
  = status_count paid_two "e1" "paid" + 1.
Proof.
  destruct (confirm_payment_moves_one_to_paid BindsNull paid_two "a1"
              (Js.Val "pi_1") (Some "pi_1") ada_unpaid) as (Hpaid & _);
    [reflexivity|reflexivity|discriminate|].
  exact Hpaid.
Defined.

Lemma confirm_payment_last_reference_wins_witness :
  payment_id <$>
    attendees
      (post_attendees_confirm_payment BindsNull
         (post_attendees_confirm_payment BindsNull paid_two "a1"
            (Js.Val "pi_1")).1 "a1" (Js.Val "pi_2")).1 !! "a1"
  = Some (Some "pi_2").
Proof.
  destruct (confirm_payment_last_reference_wins BindsNull paid_two "a1"
              "pi_1" "pi_2" ada_unpaid) as (_ & Hlast); [reflexivity|].
  exact Hlast.
Defined.

Lemma reminders_match_analytics_witness :
  exists s r,
    get_events_analytics paid_two "e1" = Json s /\
    post_send_reminders paid_two "e1" = Json r /\
    unpaid_count s =
      (if decide (count_attendees paid_two "e1" = 0) then None
       else Some (reminders_count r)) /\
    (count_attendees paid_two "e1" = 0 -> reminders_count r = 0).
Proof.
  apply (reminders_match_analytics paid_two "e1" (launch 2 1 10)).
  reflexivity.
Defined.

Lemma reminders_for_unknown_event_witness :
  post_send_reminders (one_event 2 true 10) "e404" =
    Json {| reminders_message := "Reminders sent to 0 attendees";
            reminders_count := 0 |} /\
  get_events_analytics (one_event 2 true 10) "e404"
  = Failure 404 "Event not found".
Proof.
  apply (reminders_for_unknown_event (one_event 2 true 10) "e404").
  - apply no_attendee_referential. reflexivity.
  - reflexivity.
Defined.

Lemma free_event_never_reminded_witness :
  post_send_reminders
    (serve_all BindsNull dotted (one_event 2 false 0) busy_day) "e1" =
    Json {| reminders_message := "Reminders sent to 0 attendees";
            reminders_count := 0 |}.
Proof.
  apply (free_event_never_reminded BindsNull dotted (one_event 2 false 0)
           busy_day "e1" (launch 2 0 0)).
  - apply no_attendee_referential. reflexivity.
  - apply no_attendee_owes_nothing. reflexivity.
  - reflexivity.
  - reflexivity.
Defined.

Lemma confirmed_payment_stops_reminder_witness :
  exists before after,
    post_send_reminders paid_two (event_id ada_unpaid) = Json before /\
    post_send_reminders
      (post_attendees_confirm_payment BindsNull paid_two "a1"
         (Js.Val "pi_1")).1 (event_id ada_unpaid) = Json after /\
    reminders_count after = reminders_count before - 1.
Proof.
  apply (confirmed_payment_stops_reminder BindsNull paid_two "a1"
           (Js.Val "pi_1") (Some "pi_1") ada_unpaid);
    reflexivity.
Defined.

Lemma auth_401_without_second_word_witness :
  authenticateToken only_good None = SendStatus 401 /\
  authenticateToken only_good (Some "good") = SendStatus 401 /\
  authenticateToken only_good (Some ("good" +:+ "  " +:+ "good"))
  = SendStatus 401.
Proof.
  apply (auth_401_without_second_word only_good "good" "good"). reflexivity.
Defined.

Lemma auth_scheme_not_checked_witness :
  authenticateToken only_good (Some ("Basic" +:+ " " +:+ "good" +:+ "")) =
    match only_good "good" with
    | Some user => Next user
    | None => SendStatus 403
    end.
Proof.
  apply (auth_scheme_not_checked only_good "Basic" "good" "");
    [reflexivity|reflexivity|discriminate|by left].
Defined.

Lemma register_duplicate_email_witness :
  post_auth_register BindsNull dotted organiser_only
    {| reg_email := Js.Val "o@scene.test"; reg_password := Js.Val "pw";
       reg_name := Js.Val "Other" |} "$2a$10$other" "u2" 1700000500
  = (organiser_only, Failure 500 "Registration failed").
Proof.
  apply (register_duplicate_email BindsNull dotted organiser_only _ _ _ _ "u1"
           {| user_email := "o@scene.test"; password_hash := "$2a$10$hash";
              user_name := "Organiser"; user_created_at := 1700000000 |});
    reflexivity.
Defined.

Lemma register_then_login_witness :
  exists r',
    post_auth_login BindsNull accepts_pw dotted
      (post_auth_register BindsNull dotted organiser_only ann "$2a$10$annhash"
         "u2" 1700000500).1
      {| login_email := reg_email ann; login_password := reg_password ann |}
    = Json r' /\
    session_user r' =
      session_user
        {| token := dotted "u2" "ann@scene.test";
           session_user := {| account_id := "u2";
                              account_email := "ann@scene.test";
                              account_name := "Ann" |} |} /\
    account_id (session_user r') = "u2".
Proof.
  apply (register_then_login BindsNull accepts_pw dotted dotted organiser_only
           ann "$2a$10$annhash" "u2" 1700000500 _ _ "pw");
    [vm_compute; reflexivity|reflexivity|reflexivity].
Defined.

Lemma short_name_is_text_before_colon_witness :
  short_name "Launch" = "Launch" /\
  ("Launch" <> "" ->
   forall rest, short_name ("Launch" +:+ ":" +:+ rest) = "Launch").
Proof.
  apply (short_name_is_text_before_colon "Launch"). reflexivity.
Defined.

Lemma rsvp_visible_on_event_page_witness :
  exists before after a,
    get_event (one_event 2 true 10) "e1" = Json before /\
    get_event
      (post_events_rsvp BindsNull (one_event 2 true 10) "e1" (guest "Ada")
         "a1" 1700000200).1 "e1" = Json after /\
    page_event after = page_event before /\
    page_attendees after = <["a1" := a]> (page_attendees before) /\
    page_attendees before !! "a1" = None /\
    status a = "unpaid".
Proof.
  apply (rsvp_visible_on_event_page BindsNull (one_event 2 true 10) "e1"
           (guest "Ada") "a1" 1700000200 _
           {| attendeeId := "a1"; rsvp_status := "unpaid";
              rsvp_message := "RSVP successful" |}).
  vm_compute. reflexivity.
Defined.

Lemma event_created_then_first_rsvp_witness :
  (post_events_rsvp BindsNull (one_event 2 true 10) "e1" (guest "Ada") "a1"
     1700000200).2 =
    Json {| attendeeId := "a1"; rsvp_status := "unpaid";
            rsvp_message := "RSVP successful" |}.
Proof.
  apply (event_created_then_first_rsvp BindsNull organiser_only "u1"
           (event_body 2 true 10) "e1" 1700000100 (one_event 2 true 10)
           {| eventId := "e1";
              created_message := "Event created successfully" |}
           (guest "Ada") "Ada" "guest@scene.test" "a1" 1700000200).
  - apply no_attendee_referential. reflexivity.
  - reflexivity.
  - exists (Js.int 2). split; [reflexivity|vm_compute; discriminate].
  - reflexivity.
  - reflexivity.
  - reflexivity.
Defined.

Lemma post_events_rejected_witness :
  post_events BindsNull organiser_only "nobody" (event_body 2 true 10) "e1"
    1700000100
  = (organiser_only, Failure 500 "Failed to create event").
Proof.
  apply (post_events_rejected BindsNull organiser_only "nobody"). by left.
Defined.
